(** * SpaceX launch dashboard: the two chart callbacks of [spacex-dash-app.py]

    The script loads one table of launch records into the module-level
    frame [spacex_df], builds the option list of the site selector, and
    registers two callbacks, [get_pie_chart] and [get_scatter_chart],
    that filter and count the rows of that frame.

    The embedding keeps the shape of the script.  Frames are objects
    in a store addressed by references, because the script holds
    frames by reference and assigns to the [columns] attribute of one of
    them; every pandas operation that builds a frame allocates a new
    object.  A callback is a computation in a state-and-exception monad
    over that store.  The pandas and plotly calls the script makes are
    modelled by the small layers [pd] and [px] below. *)

From Stdlib Require Import ZArith Lia Bool DecimalString Sorted.
From stdpp Require Import base list strings.

Local Open Scope string_scope.
Local Open Scope Z_scope.
Local Open Scope list_scope.

(** ** Data model *)

(** One row of [spacex_launch_dash.csv], restricted to the four columns
    the script reads.  Payload masses are modelled as integers (kg);
    the script only compares them with [>=] and [<=].  Every cell of a
    row is present: a table with a missing (NaN) cell is not a table of
    this embedding. *)
Record LaunchRecord := mkLaunch {
  Launch_Site : string;
  Payload_Mass : Z;
  class : Z;
  Booster_Version_Category : string
}.

(** A cell of a frame: the script's columns hold strings or integers. *)
Inductive Cell :=
| CStr (s : string)
| CInt (z : Z).

#[global] Instance Cell_eq_dec : EqDecision Cell.
Proof. solve_decision. Defined.

#[global] Instance LaunchRecord_eq_dec : EqDecision LaunchRecord.
Proof. solve_decision. Defined.

(** The objects the script holds by reference: a frame with the columns
    of the CSV file, or the two-column frame that
    [value_counts().reset_index()] builds. *)
Inductive Obj :=
| LaunchDF (rows : list LaunchRecord)
| CountsDF (c0 c1 : string) (rows : list (Cell * Z)).

(** A reference is an address in the store; the store lists its objects
    by address. *)
Abbreviation ref := nat (only parsing).
Abbreviation Heap := (list Obj) (only parsing).

Inductive PyError :=
| KeyError (key : string)
| ValueError (msg : string)
| TypeError (msg : string).

(** ** The callback monad: a store of frames, and Python exceptions.
    An exception keeps the store as it was when it was raised. *)
Definition M (A : Type) : Type := Heap -> (PyError + A) * Heap.

#[global] Instance M_ret : MRet M := fun A a h => (inr a, h).
#[global] Instance M_bind : MBind M := fun A B k m h =>
  match m h with
  | (inl e, h') => (inl e, h')
  | (inr a, h') => k a h'
  end.

Definition raise {A} (e : PyError) : M A := fun h => (inl e, h).

Definition alloc (o : Obj) : M ref := fun h => (inr (length h), h ++ [o]).

Definition deref (r : ref) : M Obj := fun h =>
  match h !! r with
  | Some o => (inr o, h)
  | None => (inl (ValueError "dangling reference"), h)
  end.

Definition update (r : ref) (o : Obj) : M unit := fun h => (inr tt, <[r := o]> h).

(** ** pandas *)
Module pd.

(** [Series.unique()]: the distinct values in order of first
    appearance; the values are scanned once, and a value not seen
    before goes to the end of the result. *)
Definition unique_step {A} `{EqDecision A} (seen : list A) (x : A) : list A :=
  if bool_decide (x ∈ seen) then seen else seen ++ [x].

Definition unique {A} `{EqDecision A} (s : list A) : list A :=
  fold_left unique_step s [].

(** Column selection [df[name]] as a list of cells, [None] for [KeyError]. *)
Definition column (o : Obj) (name : string) : option (list Cell) :=
  match o with
  | LaunchDF rows =>
      if String.eqb name "Launch Site" then Some ((fun r => CStr (Launch_Site r)) <$> rows)
      else if String.eqb name "Payload Mass (kg)" then Some ((fun r => CInt (Payload_Mass r)) <$> rows)
      else if String.eqb name "class" then Some ((fun r => CInt (class r)) <$> rows)
      else if String.eqb name "Booster Version Category"
           then Some ((fun r => CStr (Booster_Version_Category r)) <$> rows)
      else None
  | CountsDF c0 c1 rows =>
      if String.eqb name c0 then Some (fst <$> rows)
      else if String.eqb name c1 then Some ((fun p => CInt (snd p)) <$> rows)
      else None
  end.

Definition getitem (df : ref) (name : string) : M (list Cell) :=
  o ← deref df;
  match column o name with
  | Some s => mret s
  | None => raise (KeyError name)
  end.

(** [series >= x] and [series <= x] against a number: a string cell
    cannot be ordered against a number. *)
Fixpoint compare_with (test : Z -> bool) (s : list Cell) : option (list bool) :=
  match s with
  | [] => Some []
  | CInt v :: s' => option_map (cons (test v)) (compare_with test s')
  | CStr _ :: _ => None
  end.

Definition ge (s : list Cell) (x : Z) : M (list bool) :=
  match compare_with (fun v => x <=? v) s with
  | Some m => mret m
  | None => raise (TypeError "'>=' not supported between instances of 'str' and 'int'")
  end.

Definition le (s : list Cell) (x : Z) : M (list bool) :=
  match compare_with (fun v => v <=? x) s with
  | Some m => mret m
  | None => raise (TypeError "'<=' not supported between instances of 'str' and 'int'")
  end.

(** [series == x]: elementwise, never raises. *)
Definition eq (s : list Cell) (x : Cell) : list bool :=
  (fun c => bool_decide (c = x)) <$> s.

(** [mask1 & mask2] of two masks over the same index. *)
Definition and (m1 m2 : list bool) : list bool := zip_with andb m1 m2.

(** The rows of [rows] whose mask entry is [True]. *)
Fixpoint select {A} (rows : list A) (mask : list bool) : list A :=
  match rows, mask with
  | r :: rows', b :: mask' => if b then r :: select rows' mask' else select rows' mask'
  | _, _ => []
  end.

(** Boolean indexing [df[mask]]: a new frame; a mask of the wrong
    length is refused. *)
Definition getitem_mask (df : ref) (mask : list bool) : M ref :=
  o ← deref df;
  match o with
  | LaunchDF rows =>
      if Nat.eqb (length mask) (length rows) then alloc (LaunchDF (select rows mask))
      else raise (ValueError "Item wrong length")
  | CountsDF c0 c1 rows =>
      if Nat.eqb (length mask) (length rows) then alloc (CountsDF c0 c1 (select rows mask))
      else raise (ValueError "Item wrong length")
  end.

(** One more occurrence of [x] in a table of counts kept in order of
    first appearance. *)
Fixpoint tally (x : Cell) (counts : list (Cell * Z)) : list (Cell * Z) :=
  match counts with
  | [] => [(x, 1)]
  | (y, n) :: counts' =>
      if bool_decide (y = x) then (y, n + 1) :: counts' else (y, n) :: tally x counts'
  end.

(** Insertion into a table sorted by decreasing count, before the
    entries with the same count. *)
Fixpoint insert_desc (e : Cell * Z) (sorted : list (Cell * Z)) : list (Cell * Z) :=
  match sorted with
  | [] => [e]
  | e' :: sorted' =>
      if snd e' <=? snd e then e :: e' :: sorted' else e' :: insert_desc e sorted'
  end.

(** Sorting by decreasing count; values with the same count stay in
    their order. *)
Definition sort_desc (counts : list (Cell * Z)) : list (Cell * Z) :=
  foldr insert_desc [] counts.

(** [Series.value_counts()]: the distinct values with the number of
    times each occurs, the most frequent first.  The results below use
    of the sort only that it permutes the table. *)
Definition value_counts (s : list Cell) : list (Cell * Z) :=
  sort_desc (fold_left (fun counts x => tally x counts) s []).

(** [counts.reset_index()] on the result of [value_counts]: a new
    two-column frame.  The names pandas gives the two columns depend
    on its version; [names] stands for them. *)
Definition reset_index (names : string * string) (counts : list (Cell * Z)) : M ref :=
  alloc (CountsDF (fst names) (snd names) counts).

(** [df.columns = names]: renames the columns of the frame in place;
    as many names as columns are expected.  The script renames the
    frame of counts only, and the columns of a frame of the CSV file
    are fixed here. *)
Definition set_columns (df : ref) (names : list string) : M unit :=
  o ← deref df;
  match o, names with
  | CountsDF _ _ rows, [c0; c1] => update df (CountsDF c0 c1 rows)
  | _, _ => raise (ValueError "Length mismatch")
  end.

End pd.

(** ** plotly express *)
Module px.

(** The figure [px.pie] builds: one label and one value per row of
    the frame it is given. *)
Record PieFigure := mkPie {
  pie_labels : list Cell;
  pie_values : list Cell;
  pie_title : string;
  pie_color : option (list Cell);
  pie_color_discrete_map : list (Z * string)
}.

(** The figure [px.scatter] builds: the frame it is given, and its
    [x], [y] and [color] columns. *)
Record ScatterFigure := mkScatter {
  sc_data_frame : Obj;
  sc_x : list Cell;
  sc_y : list Cell;
  sc_color : list Cell;
  sc_title : string
}.

Definition pie (data_frame : ref) (values names title : string)
    (color : option string) (color_discrete_map : list (Z * string)) : M PieFigure :=
  vals ← pd.getitem data_frame values;
  labels ← pd.getitem data_frame names;
  colors ← match color with
           | Some c => c' ← pd.getitem data_frame c; mret (Some c')
           | None => mret None
           end;
  mret (mkPie labels vals title colors color_discrete_map).

Definition scatter (data_frame : ref) (x y color title : string) : M ScatterFigure :=
  o ← deref data_frame;
  xs ← pd.getitem data_frame x;
  ys ← pd.getitem data_frame y;
  colors ← pd.getitem data_frame color;
  mret (mkScatter o xs ys colors title).

(** What a pie chart shows: rows with the same label are merged into
    one sector whose value is the sum of theirs; a value that is not
    a number is skipped.  Sectors are listed by first appearance of
    their label. *)
Fixpoint merge (label : Cell) (v : Z) (cd : list (Cell * Z)) : list (Cell * Z) :=
  match cd with
  | [] => [(label, v)]
  | (l, w) :: cd' =>
      if bool_decide (l = label) then (l, w + v) :: cd' else (l, w) :: merge label v cd'
  end.

Definition sectors (fig : PieFigure) : list (Cell * Z) :=
  fold_left (fun cd lv => match snd lv with
                          | CInt v => merge (fst lv) v cd
                          | CStr _ => cd
                          end)
            (zip (pie_labels fig) (pie_values fig)) [].

End px.

(** ** The script *)

(** A selector option [{'label': ..., 'value': ...}]. *)
Record DropdownOption := mkOption { label : string; value : string }.

Section App.

(** The reference the module-level name [spacex_df] is bound to. *)
Variable spacex_df : ref.

(** The column names [value_counts().reset_index()] produces. *)
Variable reset_index_names : string * string.

(** Lines 19-24: the options of the site selector. *)
Definition launch_sites (rows : list LaunchRecord) : list string :=
  pd.unique (Launch_Site <$> rows).

Definition dropdown_options (rows : list LaunchRecord) : list DropdownOption :=
  fold_left (fun options site => options ++ [mkOption site site])
            (launch_sites rows)
            [mkOption "All Sites" "ALL"].

(** Lines 67-91. *)
Definition get_pie_chart (entered_site : string) : M px.PieFigure :=
  if String.eqb entered_site "ALL" then
    px.pie spacex_df "class" "Launch Site"
           "Total Success Launches By Site (All Sites)" None []
  else
    sites ← pd.getitem spacex_df "Launch Site";
    filtered_df ← pd.getitem_mask spacex_df (pd.eq sites (CStr entered_site));
    classes ← pd.getitem filtered_df "class";
    success_counts ← pd.reset_index reset_index_names (pd.value_counts classes);
    _ ← pd.set_columns success_counts ["class"; "count"];
    px.pie success_counts "count" "class"
           ("Total Success vs. Failed Launches for " +:+ entered_site)
           (Some "class") [(0, "red"); (1, "green")].

(** Lines 98-125. *)
Definition get_scatter_chart (entered_site : string) (payload_range : list Z)
    : M px.ScatterFigure :=
  match payload_range with
  | [low; high] =>
      payload ← pd.getitem spacex_df "Payload Mass (kg)";
      above ← pd.ge payload low;
      payload' ← pd.getitem spacex_df "Payload Mass (kg)";
      below ← pd.le payload' high;
      filtered_payload_df ← pd.getitem_mask spacex_df (pd.and above below);
      if String.eqb entered_site "ALL" then
        px.scatter filtered_payload_df "Payload Mass (kg)" "class"
                   "Booster Version Category"
                   "Correlation between Payload and Success for All Sites"
      else
        sites ← pd.getitem filtered_payload_df "Launch Site";
        filtered_site_payload_df ←
          pd.getitem_mask filtered_payload_df (pd.eq sites (CStr entered_site));
        px.scatter filtered_site_payload_df "Payload Mass (kg)" "class"
                   "Booster Version Category"
                   ("Correlation between Payload and Success for " +:+ entered_site)
  | _ => raise (ValueError "cannot unpack into (low, high)")
  end.

End App.

(** ** What the callbacks compute, in the words of the specification *)

(** The rows a selection retains: payload mass in the closed interval
    [[low, high]], and the selected site unless the selection is "ALL". *)
Definition in_selection (site : string) (low high : Z) (r : LaunchRecord) : Prop :=
  (low ≤ Payload_Mass r ∧ Payload_Mass r ≤ high) ∧ (site = "ALL" ∨ Launch_Site r = site).

#[global] Instance in_selection_dec site low high r : Decision (in_selection site low high r).
Proof. unfold in_selection. apply _. Defined.

Definition correlate (records : list LaunchRecord) (site : string) (low high : Z)
    : list LaunchRecord :=
  filter (in_selection site low high) records.

(** Number of records of [site] whose outcome column is [c]. *)
Definition outcome_count (records : list LaunchRecord) (site : string) (c : Z) : nat :=
  length (filter (fun r => Launch_Site r = site ∧ class r = c) records).

Definition site_count (records : list LaunchRecord) (site : string) : nat :=
  length (filter (fun r => Launch_Site r = site) records).

(** The outcome column is binary. *)
Definition binary_outcomes (records : list LaunchRecord) : Prop :=
  Forall (fun r => class r = 0 ∨ class r = 1) records.

Definition sum_values (cd : list (Cell * Z)) : Z := foldr Z.add 0 (snd <$> cd).

(** ** Auxiliary definitions for the proofs *)

Definition in_range (low high : Z) (r : LaunchRecord) : Prop :=
  low ≤ Payload_Mass r ∧ Payload_Mass r ≤ high.

#[global] Instance in_range_dec low high r : Decision (in_range low high r).
Proof. unfold in_range. apply _. Defined.

Definition scatter_title (site : string) : string :=
  if String.eqb site "ALL"
  then "Correlation between Payload and Success for All Sites"
  else "Correlation between Payload and Success for " +:+ site.

Definition scatter_figure (rows : list LaunchRecord) (title : string) : px.ScatterFigure :=
  px.mkScatter (LaunchDF rows)
    ((fun r => CInt (Payload_Mass r)) <$> rows)
    ((fun r => CInt (class r)) <$> rows)
    ((fun r => CStr (Booster_Version_Category r)) <$> rows)
    title.

(** The frames a call of [get_scatter_chart] leaves in the store. *)
Definition scatter_garbage (records : list LaunchRecord) (site : string) (low high : Z)
    : list Obj :=
  LaunchDF (filter (in_range low high) records)
  :: (if String.eqb site "ALL" then [] else [LaunchDF (correlate records site low high)]).

(** One step of a merge: the pair [p] goes into the table [cd]. *)
Definition merge_step (cd : list (Cell * Z)) (p : Cell * Z) : list (Cell * Z) :=
  px.merge (fst p) (snd p) cd.

(** The sum of the values a table holds under the label [l]. *)
Definition weight (l : Cell) (cd : list (Cell * Z)) : Z :=
  sum_values (filter (fun e => fst e = l) cd).

(** The table of a frame of records: one pair of site and outcome per row. *)
Definition outcome_pairs (records : list LaunchRecord) : list (Cell * Z) :=
  (fun r => (CStr (Launch_Site r), class r)) <$> records.

(** The table [value_counts] sorts: one entry per distinct value, by
    first appearance. *)
Definition tallies (s : list Cell) : list (Cell * Z) :=
  fold_left merge_step ((fun x => (x, 1)) <$> s) [].

Definition site_rows (records : list LaunchRecord) (site : string) : list LaunchRecord :=
  filter (fun r => Launch_Site r = site) records.

Definition site_counts (records : list LaunchRecord) (site : string) : list (Cell * Z) :=
  pd.value_counts ((fun r => CInt (class r)) <$> site_rows records site).

Definition pie_all_figure (records : list LaunchRecord) : px.PieFigure :=
  px.mkPie ((fun r => CStr (Launch_Site r)) <$> records)
           ((fun r => CInt (class r)) <$> records)
           "Total Success Launches By Site (All Sites)" None [].

Definition pie_site_figure (records : list LaunchRecord) (site : string) : px.PieFigure :=
  px.mkPie (fst <$> site_counts records site)
           ((fun p => CInt (snd p)) <$> site_counts records site)
           ("Total Success vs. Failed Launches for " +:+ site)
           (Some (fst <$> site_counts records site))
           [(0, "red"); (1, "green")].

(** The frames a call of [get_pie_chart] for one site leaves in the store. *)
Definition pie_garbage (records : list LaunchRecord) (site : string) : list Obj :=
  [LaunchDF (site_rows records site); CountsDF "class" "count" (site_counts records site)].

(** A selector change makes the dashboard call the callbacks that
    depend on it, with the current values of both selectors. *)
Inductive Call :=
| PieCall (entered_site : string)
| ScatterCall (entered_site : string) (payload_range : list Z).

Inductive Figure :=
| Pie (fig : px.PieFigure)
| Scatter (fig : px.ScatterFigure).

Definition invoke (spacex_df : ref) (reset_index_names : string * string) (c : Call)
    : M Figure :=
  match c with
  | PieCall entered_site =>
      fig ← get_pie_chart spacex_df reset_index_names entered_site; mret (Pie fig)
  | ScatterCall entered_site payload_range =>
      fig ← get_scatter_chart spacex_df entered_site payload_range; mret (Scatter fig)
  end.

(** The store after a sequence of calls. *)
Definition replay (spacex_df : ref) (reset_index_names : string * string)
    (history : list Call) (h : Heap) : Heap :=
  fold_left (fun h c => snd (invoke spacex_df reset_index_names c h)) history h.

(** The frame [get_scatter_chart] hands to [px.scatter], when it gets
    that far. *)
Definition scatter_rows (spacex_df : ref) (site : string) (payload_range : list Z)
    (h : Heap) : option Obj :=
  match fst (get_scatter_chart spacex_df site payload_range h) with
  | inr fig => Some (px.sc_data_frame fig)
  | inl _ => None
  end.

(** What a call returns on a store that holds [records], as a function
    of the records and the selection alone. *)
Definition chart (records : list LaunchRecord) (c : Call) : PyError + Figure :=
  match c with
  | PieCall site =>
      inr (Pie (if String.eqb site "ALL" then pie_all_figure records
                else pie_site_figure records site))
  | ScatterCall site [low; high] =>
      inr (Scatter (scatter_figure (correlate records site low high) (scatter_title site)))
  | ScatterCall _ _ => inl (ValueError "cannot unpack into (low, high)")
  end.

(** Sample records. *)
Definition falcon : LaunchRecord := mkLaunch "CCAFS LC-40" 500 1 "v1.0".
Definition heavy : LaunchRecord := mkLaunch "KSC LC-39A" 12000 1 "B5".
Definition dragon : LaunchRecord := mkLaunch "CCAFS LC-40" 3000 0 "FT".

#[global] Instance CStr_inj : Inj eq eq CStr.
Proof. intros s t E. by inversion E. Qed.

(** ** The rest of the script: the payload bounds and the layout *)

(** [Series.max()] and [Series.min()]: the largest and the smallest
    value of a column; of an empty column NaN, here [None]. *)
Definition series_max (s : list Z) : option Z :=
  match s with
  | [] => None
  | x :: s' => Some (fold_left Z.max s' x)
  end.

Definition series_min (s : list Z) : option Z :=
  match s with
  | [] => None
  | x :: s' => Some (fold_left Z.min s' x)
  end.

(** [Series.max()] and [Series.min()] on a column that may have missing
    cells, [None] standing for a missing cell: pandas skips the missing
    cells, and the result is NaN, here [None], when no cell is left. *)
Definition series_max_skipna (s : list (option Z)) : option Z :=
  series_max (omap id s).

Definition series_min_skipna (s : list (option Z)) : option Z :=
  series_min (omap id s).

(** Lines 11-12, on a table without missing cell. *)
Definition max_payload (rows : list LaunchRecord) : option Z :=
  series_max (Payload_Mass <$> rows).

Definition min_payload (rows : list LaunchRecord) : option Z :=
  series_min (Payload_Mass <$> rows).

(** Python's [range(start, stop, step)] for a positive [step], and
    [str] of an integer. *)
Definition py_range (start stop step : Z) : list Z :=
  (fun k => start + step * Z.of_nat k)
    <$> seq 0 (Z.to_nat ((stop - start + step - 1) / step)).

Definition py_str (i : Z) : string := NilZero.string_of_int (Z.to_int i).

(** The two selectors of the layout. *)
Record Dropdown := mkDropdown {
  dd_id : string;
  dd_options : list DropdownOption;
  dd_value : string;
  dd_placeholder : string;
  dd_searchable : bool
}.

Record RangeSlider := mkRangeSlider {
  rs_id : string;
  rs_min : Z;
  rs_max : Z;
  rs_step : Z;
  rs_marks : list (Z * string);
  rs_value : list (option Z)
}.

(** Lines 35-41. *)
Definition site_dropdown (rows : list LaunchRecord) : Dropdown :=
  mkDropdown "site-dropdown" (dropdown_options rows) "ALL"
             "Select a Launch Site here" true.

(** Lines 51-56. *)
Definition payload_slider (rows : list LaunchRecord) : RangeSlider :=
  mkRangeSlider "payload-slider" 0 10000 1000
                ((fun i => (i, py_str i)) <$> py_range 0 10001 1000)
                [min_payload rows; max_payload rows].

(** The sum of a column of integers. *)
Definition column_sum (s : list Z) : Z := foldr Z.add 0 s.

(** Every payload mass of [rows] lies in [[low, high]]. *)
Definition covers (low high : Z) (rows : list LaunchRecord) : Prop :=
  Forall (fun r => low ≤ Payload_Mass r ∧ Payload_Mass r ≤ high) rows.

(** The number of points [get_scatter_chart] plots, 0 when it raises. *)
Definition scatter_points (spacex_df : ref) (site : string) (payload_range : list Z)
    (h : Heap) : nat :=
  match fst (get_scatter_chart spacex_df site payload_range h) with
  | inr fig => length (px.sc_x fig)
  | inl _ => 0%nat
  end.

(** A table of counts in order of decreasing count. *)
Definition decreasing (cd : list (Cell * Z)) : Prop :=
  StronglySorted (fun a b => snd b ≤ snd a) cd.

(** ** The script on sample tables *)

Example dropdown_options_sample :
  dropdown_options [falcon; heavy; dragon]
  = [mkOption "All Sites" "ALL"; mkOption "CCAFS LC-40" "CCAFS LC-40";
     mkOption "KSC LC-39A" "KSC LC-39A"].
Proof. reflexivity. Qed.

Example pie_all_sample :
  get_pie_chart 0 ("index", "class") "ALL" [LaunchDF [falcon; heavy; dragon; dragon]]
  = (inr (pie_all_figure [falcon; heavy; dragon; dragon]),
     [LaunchDF [falcon; heavy; dragon; dragon]])
  ∧ px.sectors (pie_all_figure [falcon; heavy; dragon; dragon])
    = [(CStr "CCAFS LC-40", 1); (CStr "KSC LC-39A", 1)].
Proof. split; reflexivity. Qed.

Example pie_site_sample :
  get_pie_chart 0 ("index", "class") "CCAFS LC-40" [LaunchDF [falcon; heavy; dragon; dragon]]
  = (inr (px.mkPie [CInt 0; CInt 1] [CInt 2; CInt 1]
            "Total Success vs. Failed Launches for CCAFS LC-40"
            (Some [CInt 0; CInt 1]) [(0, "red"); (1, "green")]),
     [LaunchDF [falcon; heavy; dragon; dragon];
      LaunchDF [falcon; dragon; dragon];
      CountsDF "class" "count" [(CInt 0, 2); (CInt 1, 1)]]).
Proof. reflexivity. Qed.

Example scatter_sample :
  scatter_rows 0 "CCAFS LC-40" [1000; 4000] [LaunchDF [falcon; heavy; dragon]]
  = Some (LaunchDF [dragon]).
Proof. reflexivity. Qed.

Example payload_slider_sample :
  payload_slider [falcon; heavy; dragon]
  = mkRangeSlider "payload-slider" 0 10000 1000
      [(0, "0"); (1000, "1000"); (2000, "2000"); (3000, "3000"); (4000, "4000");
       (5000, "5000"); (6000, "6000"); (7000, "7000"); (8000, "8000");
       (9000, "9000"); (10000, "10000")]
      [Some 500; Some 12000].
Proof. reflexivity. Qed.

Example payload_bounds_sample :
  series_min_skipna [Some 500; None; Some 3000] = Some 500
  ∧ series_max_skipna [Some 500; None; Some 3000] = Some 3000
  ∧ series_max_skipna [None; None] = None.
Proof. split_and!; reflexivity. Qed.

Example scatter_unpack_sample :
  fst (get_scatter_chart 0 "ALL" [0; 5000; 10000] [LaunchDF [falcon]])
  = inl (ValueError "cannot unpack into (low, high)").
Proof. reflexivity. Qed.

(** ** Lemmas on masks *)

Lemma select_mask {A} (f : A -> bool) (P : A -> Prop) `{!∀ x, Decision (P x)}
    (rows : list A) :
  (∀ x, f x = true ↔ P x) ->
  pd.select rows (f <$> rows) = filter P rows.
Proof.
  intros Hf. induction rows as [|r rows IH]; [done|].
  cbn [fmap list_fmap pd.select]. rewrite filter_cons.
  destruct (f r) eqn:E; destruct (decide (P r)) as [Hp|Hp].
  - by rewrite <- IH.
  - by apply Hf in E.
  - apply Hf in Hp. congruence.
  - apply IH.
Qed.

Lemma and_fmap {A} (f g : A -> bool) (l : list A) :
  pd.and (f <$> l) (g <$> l) = (fun x => f x && g x) <$> l.
Proof. unfold pd.and. induction l; [done|]. cbn. by f_equal. Qed.

Lemma compare_with_fmap {A} (test : Z -> bool) (f : A -> Z) (l : list A) :
  pd.compare_with test ((fun r => CInt (f r)) <$> l) = Some ((fun r => test (f r)) <$> l).
Proof. induction l as [|x l IH]; [done|]. cbn. by rewrite IH. Qed.

Lemma eq_fmap {A} (f : A -> Cell) (x : Cell) (l : list A) :
  pd.eq (f <$> l) x = (fun r => bool_decide (f r = x)) <$> l.
Proof. unfold pd.eq. by rewrite <- list_fmap_compose. Qed.

(** ** Running the monad *)

Lemma bind_run {A B} (m : M A) (k : A -> M B) h a h' :
  m h = (inr a, h') -> (m ≫= k) h = k a h'.
Proof. intros E. unfold mbind, M_bind. by rewrite E. Qed.

Lemma bind_raise {A B} (m : M A) (k : A -> M B) h e h' :
  m h = (inl e, h') -> (m ≫= k) h = (inl e, h').
Proof. intros E. unfold mbind, M_bind. by rewrite E. Qed.

Lemma deref_run h r o : h !! r = Some o -> deref r h = (inr o, h).
Proof. intros E. unfold deref. by rewrite E. Qed.

Lemma getitem_run h r o name s :
  h !! r = Some o -> pd.column o name = Some s ->
  pd.getitem r name h = (inr s, h).
Proof.
  intros Hr Hc. unfold pd.getitem.
  rewrite (bind_run _ _ _ _ _ (deref_run _ _ _ Hr)). by rewrite Hc.
Qed.

Lemma getitem_mask_run h r rows mask :
  h !! r = Some (LaunchDF rows) -> length mask = length rows ->
  pd.getitem_mask r mask h = (inr (length h), h ++ [LaunchDF (pd.select rows mask)]).
Proof.
  intros Hr Hl. unfold pd.getitem_mask.
  rewrite (bind_run _ _ _ _ _ (deref_run _ _ _ Hr)).
  by rewrite Hl, Nat.eqb_refl.
Qed.

Lemma ge_run h (f : LaunchRecord -> Z) rows x :
  pd.ge ((fun r => CInt (f r)) <$> rows) x h = (inr ((fun r => x <=? f r) <$> rows), h).
Proof. unfold pd.ge. by rewrite compare_with_fmap. Qed.

Lemma le_run h (f : LaunchRecord -> Z) rows x :
  pd.le ((fun r => CInt (f r)) <$> rows) x h = (inr ((fun r => f r <=? x) <$> rows), h).
Proof. unfold pd.le. by rewrite compare_with_fmap. Qed.

Lemma scatter_run h r rows title :
  h !! r = Some (LaunchDF rows) ->
  px.scatter r "Payload Mass (kg)" "class" "Booster Version Category" title h
  = (inr (px.mkScatter (LaunchDF rows)
            ((fun r => CInt (Payload_Mass r)) <$> rows)
            ((fun r => CInt (class r)) <$> rows)
            ((fun r => CStr (Booster_Version_Category r)) <$> rows)
            title), h).
Proof.
  intros Hr. unfold px.scatter.
  rewrite (bind_run _ _ _ _ _ (deref_run _ _ _ Hr)).
  rewrite (bind_run _ _ _ _ _ (getitem_run _ _ _ "Payload Mass (kg)" _ Hr eq_refl)).
  rewrite (bind_run _ _ _ _ _ (getitem_run _ _ _ "class" _ Hr eq_refl)).
  by rewrite (bind_run _ _ _ _ _ (getitem_run _ _ _ "Booster Version Category" _ Hr eq_refl)).
Qed.

Lemma pie_run h r o values names title vs ls :
  h !! r = Some o ->
  pd.column o values = Some vs -> pd.column o names = Some ls ->
  px.pie r values names title None [] h = (inr (px.mkPie ls vs title None []), h).
Proof.
  intros Hr Hv Hn. unfold px.pie.
  rewrite (bind_run _ _ _ _ _ (getitem_run _ _ _ _ _ Hr Hv)).
  by rewrite (bind_run _ _ _ _ _ (getitem_run _ _ _ _ _ Hr Hn)).
Qed.

Lemma pie_color_run h r o values names color title cmap vs ls cs :
  h !! r = Some o ->
  pd.column o values = Some vs -> pd.column o names = Some ls ->
  pd.column o color = Some cs ->
  px.pie r values names title (Some color) cmap h
  = (inr (px.mkPie ls vs title (Some cs) cmap), h).
Proof.
  intros Hr Hv Hn Hc. unfold px.pie.
  rewrite (bind_run _ _ _ _ _ (getitem_run _ _ _ _ _ Hr Hv)).
  rewrite (bind_run _ _ _ _ _ (getitem_run _ _ _ _ _ Hr Hn)).
  erewrite bind_run; [done|].
  by rewrite (bind_run _ _ _ _ _ (getitem_run _ _ _ _ _ Hr Hc)).
Qed.

(** ** The callbacks on a store that holds the loaded table *)

Section Callbacks.

Variable spacex_df : ref.

Lemma correlate_all records low high :
  correlate records "ALL" low high = filter (in_range low high) records.
Proof.
  unfold correlate. apply list_filter_iff. intros r.
  unfold in_selection, in_range. intuition auto.
Qed.

Lemma correlate_site records site low high :
  site ≠ "ALL" ->
  correlate records site low high
  = filter (fun r => Launch_Site r = site) (filter (in_range low high) records).
Proof.
  intros Hs. unfold correlate. rewrite list_filter_filter.
  apply list_filter_iff. intros r. unfold in_selection, in_range. intuition auto.
Qed.

Lemma get_scatter_chart_run h records site low high :
  h !! spacex_df = Some (LaunchDF records) ->
  get_scatter_chart spacex_df site [low; high] h
  = (inr (scatter_figure (correlate records site low high) (scatter_title site)),
     h ++ scatter_garbage records site low high).
Proof.
  intros Hdf. unfold get_scatter_chart.
  rewrite (bind_run _ _ _ _ _ (getitem_run _ _ _ "Payload Mass (kg)" _ Hdf eq_refl)).
  rewrite (bind_run _ _ _ _ _ (ge_run _ _ _ _)).
  rewrite (bind_run _ _ _ _ _ (getitem_run _ _ _ "Payload Mass (kg)" _ Hdf eq_refl)).
  rewrite (bind_run _ _ _ _ _ (le_run _ _ _ _)).
  rewrite and_fmap.
  erewrite bind_run;
    [|apply getitem_mask_run; [exact Hdf | apply length_fmap]].
  rewrite (select_mask _ (in_range low high))
    by (intros r; unfold in_range; rewrite andb_true_iff, !Z.leb_le; done).
  set (kept := filter (in_range low high) records).
  assert (Hkept : (h ++ [LaunchDF kept]) !! length h = Some (LaunchDF kept))
    by (by apply list_lookup_middle).
  unfold scatter_garbage, scatter_title. fold kept.
  destruct (String.eqb_spec site "ALL") as [->|Hs].
  - rewrite (scatter_run _ _ _ _ Hkept). by rewrite correlate_all.
  - rewrite (bind_run _ _ _ _ _ (getitem_run _ _ _ "Launch Site" _ Hkept eq_refl)).
    rewrite eq_fmap.
    erewrite bind_run;
      [|apply getitem_mask_run; [exact Hkept | apply length_fmap]].
    rewrite (select_mask _ (fun r => Launch_Site r = site))
      by (intros r; rewrite bool_decide_eq_true; split; congruence).
    rewrite correlate_site by done. fold kept.
    set (rows := filter _ kept).
    rewrite (scatter_run _ _ rows).
    + by rewrite <- app_assoc.
    + by apply list_lookup_middle.
Qed.

(** A range that is not a pair cannot be unpacked. *)
Lemma get_scatter_chart_unpack h site payload_range :
  length payload_range ≠ 2%nat ->
  get_scatter_chart spacex_df site payload_range h
  = (inl (ValueError "cannot unpack into (low, high)"), h).
Proof.
  intros Hl. unfold get_scatter_chart.
  destruct payload_range as [|? [|? [|? ?]]]; done.
Qed.

End Callbacks.

(** ** Tables of labelled values built by merging *)

Lemma sum_values_cons e cd : sum_values (e :: cd) = snd e + sum_values cd.
Proof. done. Qed.

Lemma weight_cons l e cd :
  weight l (e :: cd) = (if decide (fst e = l) then snd e else 0) + weight l cd.
Proof. unfold weight. rewrite filter_cons. by destruct (decide (fst e = l)). Qed.

Lemma tally_merge x cd : pd.tally x cd = px.merge x 1 cd.
Proof.
  induction cd as [|[y n] cd IH]; [done|].
  cbn. by rewrite IH.
Qed.

Lemma merge_keys l v cd : fst <$> px.merge l v cd = pd.unique_step (fst <$> cd) l.
Proof.
  induction cd as [|[k w] cd IH]; [done|].
  cbn [px.merge]. destruct (decide (k = l)) as [->|Hk].
  - rewrite bool_decide_eq_true_2 by done. unfold pd.unique_step.
    rewrite bool_decide_eq_true_2; [done|]. apply list_elem_of_here.
  - rewrite bool_decide_eq_false_2 by done.
    rewrite !fmap_cons, IH. cbn [fst]. unfold pd.unique_step.
    destruct (decide (l ∈ fst <$> cd)) as [Hin|Hin].
    + rewrite !bool_decide_eq_true_2; [done| |done]. by apply list_elem_of_further.
    + rewrite !bool_decide_eq_false_2; [done| |done].
      intros [->|?]%elem_of_cons; done.
Qed.

Lemma merge_sum l v cd : sum_values (px.merge l v cd) = sum_values cd + v.
Proof.
  induction cd as [|[k w] cd IH]; [cbn; lia|].
  cbn [px.merge]. case_bool_decide.
  - rewrite !sum_values_cons. cbn. lia.
  - rewrite !sum_values_cons, IH. cbn. lia.
Qed.

Lemma merge_weight l l' v cd :
  weight l (px.merge l' v cd) = weight l cd + (if decide (l' = l) then v else 0).
Proof.
  induction cd as [|[k w] cd IH].
  - cbn [px.merge]. rewrite weight_cons. cbn. unfold weight. cbn. lia.
  - cbn [px.merge]. case_bool_decide as Hk.
    + subst k. rewrite !weight_cons. cbn. destruct (decide (l' = l)); lia.
    + rewrite !weight_cons, IH. cbn. lia.
Qed.

Lemma merge_fresh l v cd : l ∉ fst <$> cd -> px.merge l v cd = cd ++ [(l, v)].
Proof.
  induction cd as [|[k w] cd IH]; [done|].
  intros Hl. cbn [px.merge]. rewrite bool_decide_eq_false_2.
  - rewrite IH; [done|]. intros ?. apply Hl. by apply list_elem_of_further.
  - intros ->. apply Hl. apply list_elem_of_here.
Qed.

Lemma fold_merge_keys pairs acc :
  fst <$> fold_left merge_step pairs acc = fold_left pd.unique_step (fst <$> pairs) (fst <$> acc).
Proof.
  revert acc. induction pairs as [|p pairs IH]; intros acc; [done|].
  rewrite fmap_cons. cbn [fold_left]. rewrite IH. f_equal. apply merge_keys.
Qed.

Lemma fold_merge_sum pairs acc :
  sum_values (fold_left merge_step pairs acc) = sum_values acc + sum_values pairs.
Proof.
  revert acc. induction pairs as [|p pairs IH]; intros acc;
    [cbn [fold_left]; change (sum_values []) with 0; lia|].
  cbn [fold_left]. rewrite IH. unfold merge_step. rewrite merge_sum, sum_values_cons. lia.
Qed.

Lemma fold_merge_weight l pairs acc :
  weight l (fold_left merge_step pairs acc) = weight l acc + weight l pairs.
Proof.
  revert acc. induction pairs as [|p pairs IH]; intros acc.
  - cbn [fold_left]. change (weight l []) with 0. lia.
  - cbn [fold_left]. rewrite IH. unfold merge_step.
    rewrite merge_weight, weight_cons. lia.
Qed.

Lemma fold_merge_nodup cd acc :
  NoDup (fst <$> (acc ++ cd)) -> fold_left merge_step cd acc = acc ++ cd.
Proof.
  revert acc. induction cd as [|[l v] cd IH]; intros acc Hnd.
  - by rewrite app_nil_r.
  - cbn [fold_left]. unfold merge_step at 2. cbn [fst snd].
    rewrite merge_fresh.
    + rewrite IH; rewrite <- app_assoc; done.
    + rewrite fmap_app in Hnd. apply NoDup_app in Hnd as (_ & Hd & _).
      intros Hin. apply (Hd _ Hin). apply list_elem_of_here.
Qed.

Lemma weight_absent l cd : l ∉ fst <$> cd -> weight l cd = 0.
Proof.
  induction cd as [|[k w] cd IH]; intros Hl; [done|].
  rewrite fmap_cons in Hl. apply not_elem_of_cons in Hl as [Hk Hl].
  rewrite weight_cons, IH by done. cbn [fst]. by rewrite decide_False.
Qed.

(** Under distinct labels, an entry holds the whole weight of its label. *)
Lemma weight_entry l v cd : NoDup (fst <$> cd) -> (l, v) ∈ cd -> weight l cd = v.
Proof.
  induction cd as [|[k w] cd IH]; intros Hnd Hin.
  - by apply elem_of_nil in Hin.
  - rewrite fmap_cons in Hnd. apply NoDup_cons in Hnd as [Hk Hnd].
    rewrite weight_cons. cbn [fst snd] in *.
    apply elem_of_cons in Hin as [E|Hin].
    + inversion E; subst k w. rewrite decide_True by done.
      rewrite weight_absent by done. lia.
    + rewrite decide_False.
      * rewrite IH; [lia|done|done].
      * intros ->. apply Hk. apply list_elem_of_fmap. by exists (l, v).
Qed.

(** ** First-seen order of [unique] *)

Lemma unique_snoc {A} `{EqDecision A} (l : list A) (x : A) :
  pd.unique (l ++ [x]) = pd.unique_step (pd.unique l) x.
Proof. unfold pd.unique. by rewrite fold_left_app. Qed.

Lemma fold_unique_elem {A} `{EqDecision A} (l seen : list A) (x : A) :
  x ∈ fold_left pd.unique_step l seen ↔ x ∈ seen ∨ x ∈ l.
Proof.
  revert seen. induction l as [|y l IH]; intros seen; cbn [fold_left].
  - rewrite elem_of_nil. tauto.
  - rewrite IH, elem_of_cons. unfold pd.unique_step. case_bool_decide as Hy.
    + split; [tauto|]. intros [?|[->|?]]; tauto.
    + rewrite elem_of_app, list_elem_of_singleton. tauto.
Qed.

Lemma fold_unique_nodup {A} `{EqDecision A} (l seen : list A) :
  NoDup seen -> NoDup (fold_left pd.unique_step l seen).
Proof.
  revert seen. induction l as [|y l IH]; intros seen Hnd; [done|].
  cbn [fold_left]. apply IH. unfold pd.unique_step. case_bool_decide as Hy; [done|].
  apply NoDup_app. split_and!; [done| |apply NoDup_singleton].
  intros x Hx ->%list_elem_of_singleton. done.
Qed.

Lemma unique_elem {A} `{EqDecision A} (l : list A) (x : A) : x ∈ pd.unique l ↔ x ∈ l.
Proof.
  unfold pd.unique. change (x ∈ fold_left pd.unique_step l [] ↔ x ∈ l).
  rewrite fold_unique_elem, elem_of_nil. tauto.
Qed.

Lemma unique_nodup {A} `{EqDecision A} (l : list A) : NoDup (pd.unique l).
Proof. apply (fold_unique_nodup l []). apply NoDup_nil_2. Qed.

Lemma unique_fmap_inj {A B} `{EqDecision A} `{EqDecision B} (f : A -> B) `{!Inj eq eq f}
    (l : list A) :
  pd.unique (f <$> l) = f <$> pd.unique l.
Proof.
  induction l as [|x l IH] using rev_ind; [done|].
  rewrite fmap_app. cbn [fmap list_fmap]. rewrite !unique_snoc, IH. unfold pd.unique_step.
  destruct (decide (x ∈ pd.unique l)) as [Hx|Hx].
  - rewrite !bool_decide_eq_true_2; [done|done|]. by apply list_elem_of_fmap_inj.
  - rewrite !bool_decide_eq_false_2; [by rewrite fmap_app|done|].
    by rewrite list_elem_of_fmap_inj.
Qed.

(** ** The sectors of the two pies *)

Lemma sectors_fold {A} (f : A -> Cell) (g : A -> Z) (l : list A) title color cmap :
  px.sectors (px.mkPie (f <$> l) ((fun x => CInt (g x)) <$> l) title color cmap)
  = fold_left merge_step ((fun x => (f x, g x)) <$> l) [].
Proof.
  unfold px.sectors. cbn [px.pie_labels px.pie_values].
  generalize (@nil (Cell * Z)) as acc.
  induction l as [|x l IH]; intros acc; [done|].
  cbn [fmap list_fmap zip zip_with fold_left fst snd]. apply IH.
Qed.

Lemma outcome_pairs_keys records :
  fst <$> outcome_pairs records = CStr <$> (Launch_Site <$> records).
Proof. unfold outcome_pairs. rewrite <- !list_fmap_compose. done. Qed.

Lemma outcome_count_cons records r site c :
  outcome_count (r :: records) site c
  = ((if decide (Launch_Site r = site ∧ class r = c) then 1 else 0)
     + outcome_count records site c)%nat.
Proof.
  unfold outcome_count. rewrite filter_cons.
  by destruct (decide (Launch_Site r = site ∧ class r = c)).
Qed.

Lemma outcome_pairs_weight records site :
  binary_outcomes records ->
  weight (CStr site) (outcome_pairs records) = Z.of_nat (outcome_count records site 1).
Proof.
  unfold binary_outcomes, outcome_pairs.
  induction 1 as [|r records Hr _ IH]; [done|].
  rewrite fmap_cons, weight_cons, IH, outcome_count_cons. cbn [fst snd].
  destruct (decide (CStr (Launch_Site r) = CStr site)) as [E|E];
    destruct (decide (Launch_Site r = site ∧ class r = 1)) as [E'|E'];
    try lia.
  - destruct Hr as [Hr|Hr]; [lia|]. destruct E'. split; congruence.
  - destruct E' as [<- _]. done.
Qed.

Lemma outcome_pairs_sum records :
  binary_outcomes records ->
  0 ≤ sum_values (outcome_pairs records) ≤ Z.of_nat (length records).
Proof.
  unfold binary_outcomes, outcome_pairs.
  induction 1 as [|r records Hr _ IH]; [done|].
  rewrite fmap_cons, sum_values_cons. cbn [fst snd length]. lia.
Qed.

(** ** Sorting the counts *)

Lemma insert_desc_perm e cd : pd.insert_desc e cd ≡ₚ e :: cd.
Proof.
  induction cd as [|e' cd IH]; [done|].
  cbn [pd.insert_desc]. destruct (snd e' <=? snd e); [done|].
  rewrite IH. apply Permutation_swap.
Qed.

Lemma sort_desc_perm cd : pd.sort_desc cd ≡ₚ cd.
Proof.
  unfold pd.sort_desc. induction cd as [|e cd IH]; [done|].
  cbn [foldr]. by rewrite insert_desc_perm, IH.
Qed.

Lemma sum_values_perm cd1 cd2 : cd1 ≡ₚ cd2 -> sum_values cd1 = sum_values cd2.
Proof.
  induction 1 as [|e ? ? _ IH|e1 e2 ?|? ? ? _ IH1 _ IH2];
    rewrite ?sum_values_cons; lia.
Qed.

Lemma value_counts_perm s : pd.value_counts s ≡ₚ tallies s.
Proof.
  unfold pd.value_counts, tallies. rewrite sort_desc_perm.
  generalize (@nil (Cell * Z)) as acc.
  induction s as [|x s IH]; intros acc; [done|].
  cbn [fmap list_fmap fold_left]. unfold merge_step at 2. cbn [fst snd].
  rewrite tally_merge. apply IH.
Qed.

Lemma tallies_keys s : fst <$> tallies s = pd.unique s.
Proof.
  unfold tallies. rewrite fold_merge_keys, <- list_fmap_compose.
  change (pd.unique (id <$> s) = pd.unique s). by rewrite list_fmap_id.
Qed.

Lemma ones_weight (x : Cell) (s : list Cell) :
  weight x ((fun y => (y, 1)) <$> s) = Z.of_nat (length (filter (fun y => y = x) s)).
Proof.
  induction s as [|y s IH]; [done|].
  rewrite fmap_cons, weight_cons, IH, filter_cons. cbn [fst snd].
  destruct (decide (y = x)); cbn [length]; lia.
Qed.

Lemma ones_sum (s : list Cell) :
  sum_values ((fun y => (y, 1)) <$> s) = Z.of_nat (length s).
Proof.
  induction s as [|y s IH]; [done|].
  rewrite fmap_cons, sum_values_cons, IH. cbn [snd length]. lia.
Qed.

Lemma value_counts_nodup s : NoDup (fst <$> pd.value_counts s).
Proof.
  rewrite (fmap_Permutation fst _ _ (value_counts_perm s)), tallies_keys.
  apply unique_nodup.
Qed.

Lemma value_counts_entry s x n :
  (x, n) ∈ pd.value_counts s ->
  x ∈ s ∧ n = Z.of_nat (length (filter (fun y => y = x) s)).
Proof.
  intros Hin. split.
  - apply unique_elem. rewrite <- tallies_keys, <- (value_counts_perm s).
    apply list_elem_of_fmap. by exists (x, n).
  - rewrite <- (weight_entry x n (tallies s)).
    + unfold tallies. rewrite fold_merge_weight, ones_weight.
      change (weight x []) with 0. lia.
    + rewrite tallies_keys. apply unique_nodup.
    + by rewrite <- (value_counts_perm s).
Qed.

Lemma value_counts_sum s : sum_values (pd.value_counts s) = Z.of_nat (length s).
Proof.
  rewrite (sum_values_perm _ _ (value_counts_perm s)).
  unfold tallies. rewrite fold_merge_sum, ones_sum.
  change (sum_values []) with 0. lia.
Qed.

(** ** [get_pie_chart] on a store that holds the loaded table *)

Section PieCallback.

Variable spacex_df : ref.
Variable reset_index_names : string * string.

Lemma get_pie_chart_all_run h records :
  h !! spacex_df = Some (LaunchDF records) ->
  get_pie_chart spacex_df reset_index_names "ALL" h = (inr (pie_all_figure records), h).
Proof.
  intros Hdf. unfold get_pie_chart. cbn [String.eqb Ascii.eqb Bool.eqb].
  by apply (pie_run _ _ (LaunchDF records)).
Qed.

Lemma get_pie_chart_site_run h records site :
  h !! spacex_df = Some (LaunchDF records) -> site ≠ "ALL" ->
  get_pie_chart spacex_df reset_index_names site h
  = (inr (pie_site_figure records site), h ++ pie_garbage records site).
Proof.
  intros Hdf Hs. unfold get_pie_chart.
  rewrite (proj2 (String.eqb_neq _ _) Hs).
  rewrite (bind_run _ _ _ _ _ (getitem_run _ _ _ "Launch Site" _ Hdf eq_refl)).
  rewrite eq_fmap.
  erewrite bind_run;
    [|apply getitem_mask_run; [exact Hdf | apply length_fmap]].
  rewrite (select_mask _ (fun r => Launch_Site r = site))
    by (intros r; rewrite bool_decide_eq_true; split; congruence).
  fold (site_rows records site).
  set (h1 := h ++ [LaunchDF (site_rows records site)]).
  assert (H1 : h1 !! length h = Some (LaunchDF (site_rows records site)))
    by (by apply list_lookup_middle).
  rewrite (bind_run _ _ _ _ _ (getitem_run _ _ _ "class" _ H1 eq_refl)).
  fold (site_counts records site).
  unfold pd.reset_index.
  erewrite bind_run; [|reflexivity].
  set (counts0 := CountsDF _ _ _).
  assert (H2 : (h1 ++ [counts0]) !! length h1 = Some counts0)
    by (by apply list_lookup_middle).
  unfold pd.set_columns.
  erewrite (bind_run _ _ (h1 ++ [counts0]));
    [|erewrite bind_run; [|apply (deref_run _ _ _ H2)]; reflexivity].
  rewrite insert_app_r_alt, Nat.sub_diag by lia. cbn [insert list_insert].
  set (counts := CountsDF "class" "count" _).
  assert (H3 : (h1 ++ [counts]) !! length h1 = Some counts)
    by (by apply list_lookup_middle).
  rewrite (pie_color_run _ _ _ "count" "class" "class" _ _ _ _ _ H3 eq_refl eq_refl eq_refl).
  unfold h1, pie_garbage. by rewrite <- app_assoc.
Qed.

End PieCallback.

(** ** The dashboard's dispatch *)

Lemma scatter_rows_run spacex_df h records site low high :
  h !! spacex_df = Some (LaunchDF records) ->
  scatter_rows spacex_df site [low; high] h = Some (LaunchDF (correlate records site low high)).
Proof.
  intros Hdf. unfold scatter_rows.
  by rewrite (get_scatter_chart_run _ _ _ _ _ _ Hdf).
Qed.

Lemma invoke_run spacex_df names h records c :
  h !! spacex_df = Some (LaunchDF records) ->
  ∃ garbage, invoke spacex_df names c h = (chart records c, h ++ garbage).
Proof.
  intros Hdf. destruct c as [site|site payload_range]; cbn [invoke chart].
  - destruct (String.eqb_spec site "ALL") as [->|Hs].
    + exists []. rewrite app_nil_r.
      by rewrite (bind_run _ _ _ _ _ (get_pie_chart_all_run _ names _ _ Hdf)).
    + exists (pie_garbage records site).
      by rewrite (bind_run _ _ _ _ _ (get_pie_chart_site_run _ names _ _ _ Hdf Hs)).
  - destruct (decide (length payload_range = 2%nat)) as [Hl|Hl].
    + destruct payload_range as [|low [|high [|? ?]]]; try done.
      exists (scatter_garbage records site low high).
      by rewrite (bind_run _ _ _ _ _ (get_scatter_chart_run _ _ _ site low high Hdf)).
    + exists []. rewrite app_nil_r.
      rewrite (bind_raise _ _ _ _ _ (get_scatter_chart_unpack _ _ site _ Hl)).
      by destruct payload_range as [|? [|? [|? ?]]].
Qed.

Lemma replay_run spacex_df names h records history :
  h !! spacex_df = Some (LaunchDF records) ->
  ∃ garbage, replay spacex_df names history h = h ++ garbage.
Proof.
  revert h. induction history as [|c history IH]; intros h Hdf.
  - exists []. by rewrite app_nil_r.
  - cbn [replay fold_left].
    destruct (invoke_run spacex_df names h records c Hdf) as [g1 ->]. cbn [snd].
    destruct (IH (h ++ g1)) as [g2 E].
    + by apply lookup_app_l_Some.
    + exists (g1 ++ g2). unfold replay in E. by rewrite E, app_assoc.
Qed.

Lemma correlate_reversed records site low high :
  low > high -> correlate records site low high = [].
Proof.
  intros Hlt. unfold correlate. induction records as [|r records IH]; [done|].
  rewrite filter_cons, decide_False; [apply IH|].
  unfold in_selection. lia.
Qed.

Lemma correlate_within records low high :
  Forall (fun r => low ≤ Payload_Mass r ∧ Payload_Mass r ≤ high) records ->
  correlate records "ALL" low high = records.
Proof.
  unfold correlate. induction 1 as [|r records Hr _ IH]; [done|].
  rewrite filter_cons, decide_True; [by rewrite IH|].
  unfold in_selection. tauto.
Qed.

(** * The scatter chart *)

(** C3: on a store that holds the loaded records, [get_scatter_chart]
    called with the range [[low, high]] returns a figure whose frame
    holds exactly the records with [low <= payload mass <= high] (both
    ends included), restricted to the selected site unless the selection
    is "ALL"; the retained records are in the order of the table, and the
    colour column of the figure is their booster version category. *)
Theorem scatter_rows_exact (spacex_df : nat) (h : list Obj)
    (records : list LaunchRecord) (site : string) (low high : Z) :
  h !! spacex_df = Some (LaunchDF records) ->
  ∃ fig h',
    get_scatter_chart spacex_df site [low; high] h = (inr fig, h')
    ∧ px.sc_data_frame fig = LaunchDF (correlate records site low high)
    ∧ (∀ r, r ∈ correlate records site low high
            ↔ r ∈ records
              ∧ (low ≤ Payload_Mass r ∧ Payload_Mass r ≤ high)
              ∧ (site = "ALL" ∨ Launch_Site r = site))
    ∧ correlate records site low high `sublist_of` records
    ∧ px.sc_color fig
      = (fun r => CStr (Booster_Version_Category r)) <$> correlate records site low high.
Proof.
  intros Hdf. eexists _, _. split; [by apply get_scatter_chart_run|].
  cbn [px.sc_data_frame px.sc_color scatter_figure]. split_and!; try done.
  - intros r. unfold correlate. rewrite list_elem_of_filter.
    unfold in_selection. tauto.
  - apply sublist_filter.
Qed.

Lemma scatter_rows_exact_witness :
  [LaunchDF [falcon; heavy; dragon]] !! 0%nat = Some (LaunchDF [falcon; heavy; dragon])
  ∧ ∃ fig h',
      get_scatter_chart 0 "CCAFS LC-40" [0; 1000] [LaunchDF [falcon; heavy; dragon]]
      = (inr fig, h')
      ∧ px.sc_data_frame fig = LaunchDF [falcon]
      ∧ px.sc_color fig = [CStr "v1.0"].
Proof.
  split; [reflexivity|].
  destruct (scatter_rows_exact 0 [LaunchDF [falcon; heavy; dragon]]
              [falcon; heavy; dragon] "CCAFS LC-40" 0 1000 eq_refl)
    as (fig & h' & Hrun & Hrows & _ & _ & Hcolor).
  exists fig, h'. split; [exact Hrun|]. rewrite Hrows, Hcolor. split; reflexivity.
Defined.

(** C10: with the degenerate range [low = high = v], the retained
    records are exactly those whose payload mass equals [v] (of the
    selected site, unless the selection is "ALL"). *)
Theorem scatter_degenerate_range (spacex_df : nat) (h : list Obj)
    (records : list LaunchRecord) (site : string) (v : Z) :
  h !! spacex_df = Some (LaunchDF records) ->
  ∃ fig h',
    get_scatter_chart spacex_df site [v; v] h = (inr fig, h')
    ∧ px.sc_data_frame fig
      = LaunchDF (filter (fun r => Payload_Mass r = v
                                   ∧ (site = "ALL" ∨ Launch_Site r = site)) records).
Proof.
  intros Hdf. eexists _, _. split; [by apply get_scatter_chart_run|].
  cbn [px.sc_data_frame scatter_figure]. f_equal.
  unfold correlate. apply list_filter_iff. intros r.
  unfold in_selection. split; [intros [[? ?] ?]|intros [-> ?]]; split; try done; lia.
Qed.

Lemma scatter_degenerate_range_witness :
  [LaunchDF [falcon; heavy; dragon]] !! 0%nat = Some (LaunchDF [falcon; heavy; dragon])
  ∧ ∃ fig h',
      get_scatter_chart 0 "ALL" [3000; 3000] [LaunchDF [falcon; heavy; dragon]]
      = (inr fig, h')
      ∧ px.sc_data_frame fig = LaunchDF [dragon].
Proof.
  split; [reflexivity|].
  destruct (scatter_degenerate_range 0 [LaunchDF [falcon; heavy; dragon]]
              [falcon; heavy; dragon] "ALL" 3000 eq_refl)
    as (fig & h' & Hrun & Hrows).
  exists fig, h'. split; [exact Hrun|]. rewrite Hrows. reflexivity.
Defined.

(** C1, as stated, fails: the range is not sorted.  With one record
    of payload mass 500, the range (1000, 0) retains nothing and the
    range (0, 1000) retains the record. *)
Lemma scatter_reversed_range_differs :
  1000 > 0
  ∧ scatter_rows 0 "ALL" [1000; 0] [LaunchDF [falcon]]
    ≠ scatter_rows 0 "ALL" [0; 1000] [LaunchDF [falcon]].
Proof. split; [lia|]. vm_compute. discriminate. Qed.

(** C1, amended: a range given with [low > high] is taken as it is,
    neither sorted nor clamped: it retains no record, while the range
    (high, low) retains the records of the selection with payload mass
    in [[high, low]]; the two calls agree exactly when that set is
    empty. *)
Theorem scatter_reversed_range_empty (spacex_df : nat) (h : list Obj)
    (records : list LaunchRecord) (site : string) (low high : Z) :
  h !! spacex_df = Some (LaunchDF records) ->
  low > high ->
  scatter_rows spacex_df site [low; high] h = Some (LaunchDF [])
  ∧ scatter_rows spacex_df site [high; low] h
    = Some (LaunchDF (correlate records site high low))
  ∧ (scatter_rows spacex_df site [low; high] h = scatter_rows spacex_df site [high; low] h
     ↔ correlate records site high low = []).
Proof.
  intros Hdf Hlt. rewrite !(scatter_rows_run _ _ records) by done.
  rewrite correlate_reversed by done.
  split_and!; [done|done|].
  split; [intros E; by inversion E|intros ->; done].
Qed.

Lemma scatter_reversed_range_empty_witness :
  [LaunchDF [falcon]] !! 0%nat = Some (LaunchDF [falcon])
  ∧ 1000 > 0
  ∧ scatter_rows 0 "ALL" [1000; 0] [LaunchDF [falcon]] = Some (LaunchDF []).
Proof.
  split; [reflexivity|]. split; [lia|].
  apply (scatter_reversed_range_empty 0 [LaunchDF [falcon]] [falcon] "ALL" 1000 0 eq_refl).
  lia.
Defined.

(** C5, as stated, fails: a record whose payload mass lies above
    10000 is dropped by the range [[0, 10000]]. *)
Lemma scatter_full_range_drops_heavy :
  scatter_rows 0 "ALL" [0; 10000] [LaunchDF [falcon; heavy]]
  ≠ Some (LaunchDF [falcon; heavy]).
Proof. vm_compute. discriminate. Qed.

(** C5, amended: when every payload mass of the table lies in
    [[0, 10000]], the selection "ALL" with the range [[0, 10000]] retains
    the whole table, in order. *)
Theorem scatter_full_range (spacex_df : nat) (h : list Obj) (records : list LaunchRecord) :
  h !! spacex_df = Some (LaunchDF records) ->
  Forall (fun r => 0 ≤ Payload_Mass r ∧ Payload_Mass r ≤ 10000) records ->
  scatter_rows spacex_df "ALL" [0; 10000] h = Some (LaunchDF records).
Proof.
  intros Hdf Hall. rewrite (scatter_rows_run _ _ records) by done.
  by rewrite correlate_within.
Qed.

Lemma scatter_full_range_witness :
  [LaunchDF [falcon; dragon]] !! 0%nat = Some (LaunchDF [falcon; dragon])
  ∧ Forall (fun r => 0 ≤ Payload_Mass r ∧ Payload_Mass r ≤ 10000) [falcon; dragon]
  ∧ scatter_rows 0 "ALL" [0; 10000] [LaunchDF [falcon; dragon]]
    = Some (LaunchDF [falcon; dragon]).
Proof.
  assert (Hall : Forall (fun r => 0 ≤ Payload_Mass r ∧ Payload_Mass r ≤ 10000)
                        [falcon; dragon])
    by (repeat first [apply Forall_nil_2 | apply Forall_cons_2; [cbn; lia|]]).
  split; [reflexivity|]. split; [exact Hall|].
  exact (scatter_full_range 0 [LaunchDF [falcon; dragon]] [falcon; dragon] eq_refl Hall).
Defined.

(** * Sites without records *)

Lemma site_rows_none records site :
  site_count records site = 0%nat -> site_rows records site = [].
Proof. unfold site_count, site_rows. apply length_zero_iff_nil. Qed.

Lemma correlate_none records site low high :
  site ≠ "ALL" -> site_rows records site = [] -> correlate records site low high = [].
Proof.
  intros Hs Hnone. unfold correlate, site_rows in *.
  induction records as [|r records IH]; [done|].
  rewrite filter_cons in Hnone.
  destruct (decide (Launch_Site r = site)) as [E|E]; [done|].
  rewrite filter_cons, decide_False; [by apply IH|].
  unfold in_selection. tauto.
Qed.

(** C6: for a site identifier (a selection other than "ALL") that
    no record of the table carries, both callbacks return a figure, not
    an exception, and the figure is empty: the pie has no label, no
    value and no sector, and the scatter chart has no row. *)
Theorem no_records_empty_charts (spacex_df : nat) (names : string * string)
    (h : list Obj) (records : list LaunchRecord) (site : string) (low high : Z) :
  h !! spacex_df = Some (LaunchDF records) ->
  site ≠ "ALL" ->
  site_count records site = 0%nat ->
  (∃ fig h', get_pie_chart spacex_df names site h = (inr fig, h')
             ∧ px.pie_labels fig = [] ∧ px.pie_values fig = []
             ∧ px.sectors fig = [])
  ∧ (∃ fig h', get_scatter_chart spacex_df site [low; high] h = (inr fig, h')
               ∧ px.sc_data_frame fig = LaunchDF []
               ∧ px.sc_x fig = [] ∧ px.sc_y fig = [] ∧ px.sc_color fig = []).
Proof.
  intros Hdf Hs Hnone%site_rows_none. split.
  - eexists _, _. split; [by apply get_pie_chart_site_run|].
    unfold pie_site_figure, site_counts. rewrite Hnone. done.
  - eexists _, _. split; [by apply get_scatter_chart_run|].
    rewrite correlate_none by done. done.
Qed.

Lemma no_records_empty_charts_witness :
  [LaunchDF [falcon; heavy]] !! 0%nat = Some (LaunchDF [falcon; heavy])
  ∧ "VAFB SLC-4E" ≠ "ALL"
  ∧ site_count [falcon; heavy] "VAFB SLC-4E" = 0%nat
  ∧ (∃ fig h', get_pie_chart 0 ("index", "class") "VAFB SLC-4E" [LaunchDF [falcon; heavy]]
               = (inr fig, h')
               ∧ px.pie_labels fig = [] ∧ px.pie_values fig = []
               ∧ px.sectors fig = [])
  ∧ (∃ fig h', get_scatter_chart 0 "VAFB SLC-4E" [0; 10000] [LaunchDF [falcon; heavy]]
               = (inr fig, h')
               ∧ px.sc_data_frame fig = LaunchDF []
               ∧ px.sc_x fig = [] ∧ px.sc_y fig = [] ∧ px.sc_color fig = []).
Proof.
  assert (Hs : "VAFB SLC-4E" ≠ "ALL") by discriminate.
  split; [reflexivity|]. split; [exact Hs|]. split; [reflexivity|].
  exact (no_records_empty_charts 0 ("index", "class") [LaunchDF [falcon; heavy]]
           [falcon; heavy] "VAFB SLC-4E" 0 10000 eq_refl Hs eq_refl).
Defined.

(** * The site selector *)

Lemma fold_append {A B} (f : A -> B) (l : list A) (init : list B) :
  fold_left (fun acc x => acc ++ [f x]) l init = init ++ (f <$> l).
Proof.
  revert init. induction l as [|x l IH]; intros init; cbn [fold_left].
  - by rewrite app_nil_r.
  - rewrite IH, <- app_assoc. done.
Qed.

(** In [unique l], an element that comes before another was seen in
    [l] before any occurrence of the other. *)
Lemma unique_first_seen {A} `{EqDecision A} (l : list A) (i j : nat) (s t : A) :
  pd.unique l !! i = Some s -> pd.unique l !! j = Some t -> (i < j)%nat ->
  ∃ k, l !! k = Some s ∧ ∀ k', (k' ≤ k)%nat -> l !! k' ≠ Some t.
Proof.
  revert i j s t. induction l as [|x l IH] using rev_ind; intros i j s t Hi Hj Hij.
  - change (pd.unique []) with (@nil A) in Hi. by rewrite lookup_nil in Hi.
  - rewrite unique_snoc in Hi, Hj. unfold pd.unique_step in Hi, Hj.
    assert (Hold : ∀ k, l !! k = Some s ->
                        (∀ k', (k' ≤ k)%nat -> l !! k' ≠ Some t) ->
                        ∃ k, (l ++ [x]) !! k = Some s
                             ∧ ∀ k', (k' ≤ k)%nat -> (l ++ [x]) !! k' ≠ Some t).
    { intros k Hk Hbefore. exists k. split; [by apply lookup_app_l_Some|].
      intros k' Hk'. rewrite lookup_app_l; [by apply Hbefore|].
      apply lookup_lt_Some in Hk. lia. }
    destruct (decide (x ∈ pd.unique l)) as [Hx|Hx].
    + rewrite bool_decide_eq_true_2 in Hi, Hj by done.
      destruct (IH _ _ _ _ Hi Hj Hij) as (k & Hk & Hbefore). eauto.
    + rewrite bool_decide_eq_false_2 in Hi, Hj by done.
      apply lookup_snoc_Some in Hj as [[Hjl Hj]|[Hjl <-]].
      * rewrite lookup_app_l in Hi by lia.
        destruct (IH _ _ _ _ Hi Hj Hij) as (k & Hk & Hbefore). eauto.
      * rewrite lookup_app_l in Hi by lia.
        assert (Hs : s ∈ l) by (apply unique_elem, list_elem_of_lookup; eauto).
        apply list_elem_of_lookup in Hs as [k Hk].
        apply (Hold k Hk). intros k' _ Hk'. apply Hx, unique_elem.
        apply list_elem_of_lookup. eauto.
Qed.

(** C7: the options of the site selector are the synthetic option
    "ALL" first, then one option per distinct site of the table, each
    site once, in the order in which the sites first appear in the
    table. *)
Theorem dropdown_options_first_seen (records : list LaunchRecord) :
  dropdown_options records
  = mkOption "All Sites" "ALL" :: ((fun s => mkOption s s) <$> launch_sites records)
  ∧ NoDup (launch_sites records)
  ∧ (∀ s, s ∈ launch_sites records ↔ s ∈ Launch_Site <$> records)
  ∧ (∀ i j s t,
        launch_sites records !! i = Some s -> launch_sites records !! j = Some t ->
        (i < j)%nat ->
        ∃ k, (Launch_Site <$> records) !! k = Some s
             ∧ ∀ k', (k' ≤ k)%nat -> (Launch_Site <$> records) !! k' ≠ Some t).
Proof.
  split_and!.
  - unfold dropdown_options. by rewrite fold_append.
  - apply unique_nodup.
  - intros s. apply unique_elem.
  - intros i j s t. apply unique_first_seen.
Qed.

(** * The pie chart *)

Lemma all_sectors records :
  px.sectors (pie_all_figure records) = fold_left merge_step (outcome_pairs records) [].
Proof. unfold pie_all_figure. by rewrite sectors_fold. Qed.

Lemma all_sectors_keys records :
  fst <$> px.sectors (pie_all_figure records) = CStr <$> launch_sites records.
Proof.
  rewrite all_sectors, fold_merge_keys, outcome_pairs_keys.
  unfold launch_sites. rewrite <- unique_fmap_inj by apply _. done.
Qed.

Lemma all_sectors_nodup records : NoDup (fst <$> px.sectors (pie_all_figure records)).
Proof.
  rewrite all_sectors_keys. apply NoDup_fmap; [apply _|]. apply unique_nodup.
Qed.

Lemma all_sectors_weight records site :
  binary_outcomes records ->
  weight (CStr site) (px.sectors (pie_all_figure records))
  = Z.of_nat (outcome_count records site 1).
Proof.
  intros Hbin. rewrite all_sectors, fold_merge_weight, outcome_pairs_weight by done.
  change (weight (CStr site) []) with 0. lia.
Qed.

Lemma all_sectors_entry records site v :
  binary_outcomes records ->
  (CStr site, v) ∈ px.sectors (pie_all_figure records) ->
  v = Z.of_nat (outcome_count records site 1).
Proof.
  intros Hbin Hin. rewrite <- (all_sectors_weight records site Hbin).
  symmetry. apply weight_entry; [apply all_sectors_nodup|done].
Qed.

Lemma all_sectors_present records site :
  binary_outcomes records ->
  site ∈ Launch_Site <$> records ->
  (CStr site, Z.of_nat (outcome_count records site 1)) ∈ px.sectors (pie_all_figure records).
Proof.
  intros Hbin Hsite.
  assert (Hk : CStr site ∈ fst <$> px.sectors (pie_all_figure records)).
  { rewrite all_sectors_keys. apply list_elem_of_fmap_2.
    unfold launch_sites. by apply unique_elem. }
  apply list_elem_of_fmap in Hk as [[l v] [E Hin]]. cbn [fst] in E. subst l.
  by rewrite <- (all_sectors_entry _ _ _ Hbin Hin).
Qed.

(** C2, as stated, fails: the pie of all sites keeps an entry for a
    site without any success record.  On a table of one failure at
    CCAFS LC-40 and one success at KSC LC-39A the pie gets the labels
    and values of both records and has two entries, the first of value
    0, while one site only has a success record. *)
Lemma pie_all_keeps_site_without_success :
  get_pie_chart 0 ("index", "class") "ALL" [LaunchDF [dragon; heavy]]
  = (inr (pie_all_figure [dragon; heavy]), [LaunchDF [dragon; heavy]])
  ∧ px.pie_labels (pie_all_figure [dragon; heavy])
    = [CStr "CCAFS LC-40"; CStr "KSC LC-39A"]
  ∧ px.pie_values (pie_all_figure [dragon; heavy]) = [CInt 0; CInt 1]
  ∧ px.sectors (pie_all_figure [dragon; heavy])
    = [(CStr "CCAFS LC-40", 0); (CStr "KSC LC-39A", 1)]
  ∧ outcome_count [dragon; heavy] "CCAFS LC-40" 1 = 0%nat
  ∧ length (px.sectors (pie_all_figure [dragon; heavy]))
    ≠ length (filter (fun site => (0 < outcome_count [dragon; heavy] site 1)%nat)
                     (launch_sites [dragon; heavy])).
Proof. split_and!; try reflexivity. vm_compute. discriminate. Qed.

(** C2, amended: on a store that holds the loaded records, with a
    binary outcome column, [get_pie_chart "ALL"] hands the pie one label
    (the site) and one value (the [class] cell) per record.  Merged by
    label, that is one entry per distinct site of the table, in order of
    first appearance, also for a site without success record; the value
    of the entry of a site is the number of its success records (0 when
    it has none), and the values add up to at most the number of
    records. *)
Theorem pie_all_one_entry_per_site (spacex_df : nat) (names : string * string)
    (h : list Obj) (records : list LaunchRecord) :
  h !! spacex_df = Some (LaunchDF records) ->
  binary_outcomes records ->
  ∃ fig,
    get_pie_chart spacex_df names "ALL" h = (inr fig, h)
    ∧ px.pie_labels fig = (fun r => CStr (Launch_Site r)) <$> records
    ∧ px.pie_values fig = (fun r => CInt (class r)) <$> records
    ∧ fst <$> px.sectors fig = CStr <$> launch_sites records
    ∧ NoDup (fst <$> px.sectors fig)
    ∧ (∀ l v, (l, v) ∈ px.sectors fig
              ↔ ∃ site, l = CStr site ∧ site ∈ Launch_Site <$> records
                        ∧ v = Z.of_nat (outcome_count records site 1))
    ∧ sum_values (px.sectors fig) ≤ Z.of_nat (length records).
Proof.
  intros Hdf Hbin. exists (pie_all_figure records).
  split; [by apply get_pie_chart_all_run|]. split_and!; try done.
  - apply all_sectors_keys.
  - apply all_sectors_nodup.
  - intros l v. split.
    + intros Hin.
      assert (Hl : l ∈ CStr <$> launch_sites records).
      { rewrite <- all_sectors_keys. apply list_elem_of_fmap. by exists (l, v). }
      apply list_elem_of_fmap in Hl as [site [-> Hsite]].
      exists site. split_and!; [done| |by apply all_sectors_entry].
      exact (proj1 (unique_elem _ _) Hsite).
    + intros (site & -> & Hsite & ->). by apply all_sectors_present.
  - rewrite all_sectors, fold_merge_sum. change (sum_values []) with 0.
    pose proof (outcome_pairs_sum records Hbin). lia.
Qed.

Lemma pie_all_one_entry_per_site_witness :
  [LaunchDF [dragon; heavy]] !! 0%nat = Some (LaunchDF [dragon; heavy])
  ∧ binary_outcomes [dragon; heavy]
  ∧ ∃ fig,
      get_pie_chart 0 ("index", "class") "ALL" [LaunchDF [dragon; heavy]]
      = (inr fig, [LaunchDF [dragon; heavy]])
      ∧ px.pie_values fig = [CInt 0; CInt 1]
      ∧ fst <$> px.sectors fig = [CStr "CCAFS LC-40"; CStr "KSC LC-39A"]
      ∧ (CStr "CCAFS LC-40", 0) ∈ px.sectors fig.
Proof.
  assert (Hbin : binary_outcomes [dragon; heavy])
    by (unfold binary_outcomes;
        repeat first [apply Forall_nil_2 | apply Forall_cons_2; [cbn; lia|]]).
  split; [reflexivity|]. split; [exact Hbin|].
  destruct (pie_all_one_entry_per_site 0 ("index", "class")
              [LaunchDF [dragon; heavy]] [dragon; heavy] eq_refl Hbin)
    as (fig & Hrun & _ & Hvalues & Hkeys & _ & Hentries & _).
  exists fig. split; [exact Hrun|]. rewrite Hvalues, Hkeys.
  split; [reflexivity|]. split; [reflexivity|].
  apply Hentries. exists "CCAFS LC-40". split; [reflexivity|].
  split; [apply list_elem_of_here|reflexivity].
Defined.

Lemma fmap_pair_eta {A B} (l : list (A * B)) : (fun p => (fst p, snd p)) <$> l = l.
Proof. induction l as [|[a b] l IH]; [done|]. rewrite fmap_cons, IH. done. Qed.

Lemma site_sectors records site :
  px.sectors (pie_site_figure records site) = site_counts records site.
Proof.
  unfold pie_site_figure. rewrite sectors_fold, fmap_pair_eta.
  apply (fold_merge_nodup _ []). apply value_counts_nodup.
Qed.

Lemma class_count records site c :
  length (filter (fun y => y = CInt c) ((fun r => CInt (class r)) <$> site_rows records site))
  = outcome_count records site c.
Proof.
  unfold site_rows, outcome_count. induction records as [|r records IH]; [done|].
  rewrite !filter_cons.
  destruct (decide (Launch_Site r = site)) as [Es|Es].
  - rewrite fmap_cons, filter_cons.
    destruct (decide (CInt (class r) = CInt c)) as [Ec|Ec].
    + rewrite decide_True by (split; congruence). cbn [length]. by rewrite IH.
    + rewrite decide_False; [done|]. intros [_ E]. congruence.
  - rewrite decide_False; [done|]. tauto.
Qed.

Lemma site_rows_binary records site :
  binary_outcomes records -> binary_outcomes (site_rows records site).
Proof.
  unfold binary_outcomes, site_rows. rewrite !Forall_forall.
  intros Hbin r [_ Hr]%list_elem_of_filter. by apply Hbin.
Qed.

Lemma site_counts_entry records site l v :
  binary_outcomes records ->
  (l, v) ∈ site_counts records site ->
  ∃ c, (c = 0 ∨ c = 1) ∧ l = CInt c
       ∧ v = Z.of_nat (outcome_count records site c) ∧ 0 < v.
Proof.
  intros Hbin [Hl Hv]%value_counts_entry.
  apply list_elem_of_fmap in Hl as [r [-> Hr]].
  exists (class r). rewrite class_count in Hv. split_and!; [|done|done|].
  - apply site_rows_binary with (site := site) in Hbin.
    unfold binary_outcomes in Hbin. rewrite Forall_forall in Hbin. by apply Hbin.
  - subst v. unfold site_rows in Hr. apply list_elem_of_filter in Hr as [Hs Hr].
    assert (Hin : r ∈ filter (fun r' => Launch_Site r' = site ∧ class r' = class r) records)
      by (by apply list_elem_of_filter).
    unfold outcome_count. destruct (filter _ records); [by apply elem_of_nil in Hin|].
    cbn [length]. lia.
Qed.

Lemma site_counts_present records site c :
  (0 < outcome_count records site c)%nat ->
  (CInt c, Z.of_nat (outcome_count records site c)) ∈ site_counts records site.
Proof.
  intros Hpos. rewrite <- class_count in Hpos.
  assert (Hc : CInt c ∈ (fun r => CInt (class r)) <$> site_rows records site).
  { destruct (filter _ _) as [|y ys] eqn:E in Hpos; [cbn in Hpos; lia|].
    assert (Hy : y ∈ y :: ys) by apply list_elem_of_here.
    rewrite <- E in Hy. apply list_elem_of_filter in Hy as [-> Hy]. done. }
  assert (Hk : CInt c ∈ fst <$> site_counts records site).
  { unfold site_counts.
    rewrite (fmap_Permutation fst _ _ (value_counts_perm _)), tallies_keys.
    by apply unique_elem. }
  apply list_elem_of_fmap in Hk as [[l n] [E Hin]]. cbn [fst] in E. subst l.
  pose proof Hin as [_ ->]%value_counts_entry. by rewrite class_count in Hin.
Qed.

Lemma site_counts_sum records site :
  sum_values (site_counts records site) = Z.of_nat (site_count records site).
Proof. unfold site_counts. by rewrite value_counts_sum, length_fmap. Qed.

Lemma site_counts_length records site :
  binary_outcomes records -> (length (site_counts records site) ≤ 2)%nat.
Proof.
  intros Hbin. rewrite <- (length_fmap fst).
  change 2%nat with (length [CInt 0; CInt 1]).
  apply submseteq_length, NoDup_submseteq; [apply value_counts_nodup|].
  intros l [[l' v] [-> Hin]]%list_elem_of_fmap.
  destruct (site_counts_entry _ _ _ _ Hbin Hin) as (c & [->| ->] & -> & _); cbn [fst].
  - apply list_elem_of_here.
  - apply list_elem_of_further, list_elem_of_here.
Qed.

(** C4: on a store that holds the loaded records, with a binary
    outcome column, [get_pie_chart] called with a site [S] (a selection
    other than "ALL") returns a pie of at most two labelled entries:
    its labels are distinct outcomes and its values their counts, the
    entry labelled 0 holding the number of failure records of [S] and
    the entry labelled 1 the number of its success records, an outcome
    having an entry exactly when [S] has a record of it; the values add
    up to the number of records of [S].  The entries are those of the
    figure itself, one per label and value handed to the pie, and
    merging by label leaves them as they are. *)
Theorem pie_site_counts_outcomes (spacex_df : nat) (names : string * string)
    (h : list Obj) (records : list LaunchRecord) (site : string) :
  h !! spacex_df = Some (LaunchDF records) ->
  binary_outcomes records ->
  site ≠ "ALL" ->
  ∃ fig h' entries,
    get_pie_chart spacex_df names site h = (inr fig, h')
    ∧ px.pie_labels fig = fst <$> entries
    ∧ px.pie_values fig = (fun e => CInt (snd e)) <$> entries
    ∧ px.sectors fig = entries
    ∧ (length entries ≤ 2)%nat
    ∧ NoDup (fst <$> entries)
    ∧ (∀ l v, (l, v) ∈ entries ->
              ∃ c, (c = 0 ∨ c = 1) ∧ l = CInt c
                   ∧ v = Z.of_nat (outcome_count records site c) ∧ 0 < v)
    ∧ (∀ c, (0 < outcome_count records site c)%nat ->
            (CInt c, Z.of_nat (outcome_count records site c)) ∈ entries)
    ∧ sum_values entries = Z.of_nat (site_count records site).
Proof.
  intros Hdf Hbin Hs.
  exists (pie_site_figure records site), (h ++ pie_garbage records site),
         (site_counts records site).
  split; [by apply get_pie_chart_site_run|]. split_and!.
  - done.
  - done.
  - apply site_sectors.
  - by apply site_counts_length.
  - apply value_counts_nodup.
  - intros l v. by apply site_counts_entry.
  - apply site_counts_present.
  - apply site_counts_sum.
Qed.

Lemma pie_site_counts_outcomes_witness :
  [LaunchDF [falcon; heavy; dragon; dragon]] !! 0%nat
  = Some (LaunchDF [falcon; heavy; dragon; dragon])
  ∧ binary_outcomes [falcon; heavy; dragon; dragon]
  ∧ "CCAFS LC-40" ≠ "ALL"
  ∧ ∃ fig h',
      get_pie_chart 0 ("index", "class") "CCAFS LC-40"
        [LaunchDF [falcon; heavy; dragon; dragon]]
      = (inr fig, h')
      ∧ px.pie_labels fig = [CInt 0; CInt 1]
      ∧ px.pie_values fig = [CInt 2; CInt 1].
Proof.
  assert (Hbin : binary_outcomes [falcon; heavy; dragon; dragon])
    by (unfold binary_outcomes;
        repeat first [apply Forall_nil_2 | apply Forall_cons_2; [cbn; lia|]]).
  assert (Hs : "CCAFS LC-40" ≠ "ALL") by discriminate.
  split; [reflexivity|]. split; [exact Hbin|]. split; [exact Hs|].
  destruct (pie_site_counts_outcomes 0 ("index", "class")
              [LaunchDF [falcon; heavy; dragon; dragon]] [falcon; heavy; dragon; dragon]
              "CCAFS LC-40" eq_refl Hbin Hs)
    as (fig & h' & entries & Hrun & _).
  exists fig, h'. split; [exact Hrun|].
  rewrite (get_pie_chart_site_run _ _ _ [falcon; heavy; dragon; dragon]) in Hrun
    by (reflexivity || exact Hs).
  inversion Hrun; subst fig. split; reflexivity.
Defined.

(** * The callbacks and the store *)

Lemma snd_bind_ret {A B} (m : M A) (f : A -> B) h :
  snd ((a ← m; mret (f a)) h) = snd (m h).
Proof. unfold mbind, M_bind. by destruct (m h) as [[e|a] h']. Qed.

Lemma invoke_keeps spacex_df names h records c r o :
  h !! spacex_df = Some (LaunchDF records) ->
  h !! r = Some o -> snd (invoke spacex_df names c h) !! r = Some o.
Proof.
  intros Hdf Hr. destruct (invoke_run spacex_df names h records c Hdf) as [g ->].
  by apply lookup_app_l_Some.
Qed.

Lemma replay_keeps spacex_df names h records history r o :
  h !! spacex_df = Some (LaunchDF records) ->
  h !! r = Some o -> replay spacex_df names history h !! r = Some o.
Proof.
  intros Hdf Hr. destruct (replay_run spacex_df names h records history Hdf) as [g ->].
  by apply lookup_app_l_Some.
Qed.

(** C8: what a callback returns is a function of the loaded records
    and of the selection alone.  On any two stores that hold the same
    records under [spacex_df], and after any sequence of earlier calls,
    the same call returns the same result, the one [chart] computes from
    the records and the selection. *)
Theorem callbacks_deterministic (spacex_df : nat) (names : string * string)
    (records : list LaunchRecord) (h1 h2 : list Obj) (history : list Call) (c : Call) :
  h1 !! spacex_df = Some (LaunchDF records) ->
  h2 !! spacex_df = Some (LaunchDF records) ->
  fst (invoke spacex_df names c (replay spacex_df names history h1))
  = fst (invoke spacex_df names c h2)
  ∧ fst (invoke spacex_df names c h2) = chart records c.
Proof.
  intros H1 H2.
  pose proof (replay_keeps spacex_df names h1 records history _ _ H1 H1) as H1'.
  destruct (invoke_run spacex_df names _ records c H1') as [g1 ->].
  destruct (invoke_run spacex_df names _ records c H2) as [g2 ->].
  done.
Qed.

Lemma callbacks_deterministic_witness :
  [LaunchDF [falcon; heavy]] !! 0%nat = Some (LaunchDF [falcon; heavy])
  ∧ [LaunchDF [falcon; heavy]; LaunchDF [dragon]] !! 0%nat = Some (LaunchDF [falcon; heavy])
  ∧ fst (invoke 0 ("index", "class") (ScatterCall "ALL" [0; 1000])
           (replay 0 ("index", "class")
              [PieCall "CCAFS LC-40"; ScatterCall "KSC LC-39A" [0; 10000]]
              [LaunchDF [falcon; heavy]]))
    = fst (invoke 0 ("index", "class") (ScatterCall "ALL" [0; 1000])
             [LaunchDF [falcon; heavy]; LaunchDF [dragon]]).
Proof.
  split; [reflexivity|]. split; [reflexivity|].
  apply (callbacks_deterministic 0 ("index", "class") [falcon; heavy]
           [LaunchDF [falcon; heavy]] [LaunchDF [falcon; heavy]; LaunchDF [dragon]]
           [PieCall "CCAFS LC-40"; ScatterCall "KSC LC-39A" [0; 10000]]
           (ScatterCall "ALL" [0; 1000]) eq_refl eq_refl).
Defined.

(** C9: a call of either callback, with any selection, leaves the
    object [spacex_df] refers to as it was, the loaded records; so does
    any sequence of calls, and every other object the store held before
    is unchanged as well. *)
Theorem callbacks_preserve_table (spacex_df : nat) (names : string * string)
    (records : list LaunchRecord) (h : list Obj)
    (site : string) (payload_range : list Z) (history : list Call) :
  h !! spacex_df = Some (LaunchDF records) ->
  snd (get_pie_chart spacex_df names site h) !! spacex_df = Some (LaunchDF records)
  ∧ snd (get_scatter_chart spacex_df site payload_range h) !! spacex_df
    = Some (LaunchDF records)
  ∧ replay spacex_df names history h !! spacex_df = Some (LaunchDF records)
  ∧ (∀ r o, h !! r = Some o -> replay spacex_df names history h !! r = Some o).
Proof.
  intros Hdf. split_and!.
  - rewrite <- (snd_bind_ret _ Pie).
    by apply (invoke_keeps spacex_df names h records (PieCall site)).
  - rewrite <- (snd_bind_ret _ Scatter).
    by apply (invoke_keeps spacex_df names h records (ScatterCall site payload_range)).
  - by apply (replay_keeps spacex_df names h records).
  - intros r o. by apply (replay_keeps spacex_df names h records).
Qed.

Lemma callbacks_preserve_table_witness :
  [LaunchDF [falcon; heavy]] !! 0%nat = Some (LaunchDF [falcon; heavy])
  ∧ snd (get_pie_chart 0 ("index", "class") "CCAFS LC-40" [LaunchDF [falcon; heavy]])
      !! 0%nat
    = Some (LaunchDF [falcon; heavy]).
Proof.
  split; [reflexivity|].
  apply (callbacks_preserve_table 0 ("index", "class") [falcon; heavy]
           [LaunchDF [falcon; heavy]] "CCAFS LC-40" [0; 10000] [] eq_refl).
Defined.


(** * Further properties of the script *)

(** ** The payload bounds and the initial view *)

Lemma fold_max_spec (l : list Z) (a : Z) :
  (fold_left Z.max l a = a ∨ fold_left Z.max l a ∈ l)
  ∧ a ≤ fold_left Z.max l a
  ∧ ∀ x, x ∈ l -> x ≤ fold_left Z.max l a.
Proof.
  revert a. induction l as [|y l IH]; intros a; cbn [fold_left].
  - split_and!; [by left|lia|]. intros x Hx. by apply elem_of_nil in Hx.
  - destruct (IH (Z.max a y)) as (Hin & Hle & Hall). split_and!.
    + destruct Hin as [E|Hin]; [|right; by apply list_elem_of_further].
      rewrite E. destruct (Z.max_spec a y) as [[_ ->]|[_ ->]]; [right|by left].
      apply list_elem_of_here.
    + lia.
    + intros x [->|Hx]%elem_of_cons; [lia|by apply Hall].
Qed.

Lemma fold_min_spec (l : list Z) (a : Z) :
  (fold_left Z.min l a = a ∨ fold_left Z.min l a ∈ l)
  ∧ fold_left Z.min l a ≤ a
  ∧ ∀ x, x ∈ l -> fold_left Z.min l a ≤ x.
Proof.
  revert a. induction l as [|y l IH]; intros a; cbn [fold_left].
  - split_and!; [by left|lia|]. intros x Hx. by apply elem_of_nil in Hx.
  - destruct (IH (Z.min a y)) as (Hin & Hle & Hall). split_and!.
    + destruct Hin as [E|Hin]; [|right; by apply list_elem_of_further].
      rewrite E. destruct (Z.min_spec a y) as [[_ ->]|[_ ->]]; [by left|right].
      apply list_elem_of_here.
    + lia.
    + intros x [->|Hx]%elem_of_cons; [lia|by apply Hall].
Qed.

Lemma series_max_spec (s : list Z) :
  s ≠ [] -> ∃ m, series_max s = Some m ∧ m ∈ s ∧ ∀ x, x ∈ s -> x ≤ m.
Proof.
  destruct s as [|a l]; [done|]. intros _. eexists. split; [done|].
  destruct (fold_max_spec l a) as (Hin & Hle & Hall). split.
  - destruct Hin as [->|Hin]; [apply list_elem_of_here|by apply list_elem_of_further].
  - intros x [->|Hx]%elem_of_cons; [done|by apply Hall].
Qed.

Lemma series_min_spec (s : list Z) :
  s ≠ [] -> ∃ m, series_min s = Some m ∧ m ∈ s ∧ ∀ x, x ∈ s -> m ≤ x.
Proof.
  destruct s as [|a l]; [done|]. intros _. eexists. split; [done|].
  destruct (fold_min_spec l a) as (Hin & Hle & Hall). split.
  - destruct Hin as [->|Hin]; [apply list_elem_of_here|by apply list_elem_of_further].
  - intros x [->|Hx]%elem_of_cons; [done|by apply Hall].
Qed.

Lemma payload_column_nonempty (records : list LaunchRecord) :
  records ≠ [] -> Payload_Mass <$> records ≠ [].
Proof. by destruct records. Qed.

Lemma payload_bounds_cover (records : list LaunchRecord) :
  records ≠ [] ->
  ∃ lo hi, min_payload records = Some lo ∧ max_payload records = Some hi
           ∧ lo ∈ Payload_Mass <$> records ∧ hi ∈ Payload_Mass <$> records
           ∧ covers lo hi records.
Proof.
  intros Hne%payload_column_nonempty.
  destruct (series_min_spec _ Hne) as (lo & Hlo & Hlo_in & Hlo_le).
  destruct (series_max_spec _ Hne) as (hi & Hhi & Hhi_in & Hhi_le).
  exists lo, hi. split_and!; try done.
  unfold covers. apply Forall_forall. intros r Hr.
  assert (Payload_Mass r ∈ Payload_Mass <$> records) by (by apply list_elem_of_fmap_2).
  split; [by apply Hlo_le|by apply Hhi_le].
Qed.






(** X2: on a table without missing cell, the initial view shows the
    whole table.  For such a table with at least one record, the
    initial value of the range slider is the pair of [min_payload] and
    [max_payload], and [get_scatter_chart] called with the initial value
    of the site selector and that pair retains every record of the
    table. *)
Theorem initial_view_shows_all (spacex_df : nat) (h : list Obj)
    (records : list LaunchRecord) :
  h !! spacex_df = Some (LaunchDF records) ->
  records ≠ [] ->
  ∃ lo hi,
    rs_value (payload_slider records) = [Some lo; Some hi]
    ∧ scatter_rows spacex_df (dd_value (site_dropdown records)) [lo; hi] h
      = Some (LaunchDF records).
Proof.
  intros Hdf Hne.
  destruct (payload_bounds_cover records Hne) as (lo & hi & Hlo & Hhi & _ & _ & Hc).
  exists lo, hi. cbn [payload_slider rs_value site_dropdown dd_value].
  rewrite Hlo, Hhi. split; [done|].
  rewrite (scatter_rows_run _ _ records) by done.
  by rewrite correlate_within.
Qed.

Lemma initial_view_shows_all_witness :
  [LaunchDF [falcon; heavy; dragon]] !! 0%nat = Some (LaunchDF [falcon; heavy; dragon])
  ∧ [falcon; heavy; dragon] ≠ []
  ∧ ∃ lo hi,
      rs_value (payload_slider [falcon; heavy; dragon]) = [Some lo; Some hi]
      ∧ scatter_rows 0 (dd_value (site_dropdown [falcon; heavy; dragon])) [lo; hi]
          [LaunchDF [falcon; heavy; dragon]]
        = Some (LaunchDF [falcon; heavy; dragon]).
Proof.
  assert (Hne : [falcon; heavy; dragon] ≠ []) by discriminate.
  split; [reflexivity|]. split; [exact Hne|].
  exact (initial_view_shows_all 0 [LaunchDF [falcon; heavy; dragon]]
           [falcon; heavy; dragon] eq_refl Hne).
Defined.

(** X3: on an empty table nothing fails at the callbacks: the payload
    bounds are NaN, the site selector offers the option "ALL" alone, and
    on a store that holds the empty table every call of [get_pie_chart]
    and every call of [get_scatter_chart] with a pair returns a figure
    without sector, respectively without row. *)
Theorem empty_table_empty_charts (spacex_df : nat) (names : string * string)
    (h : list Obj) (site : string) (low high : Z) :
  h !! spacex_df = Some (LaunchDF []) ->
  min_payload [] = None ∧ max_payload [] = None
  ∧ dropdown_options [] = [mkOption "All Sites" "ALL"]
  ∧ (∃ fig h', get_pie_chart spacex_df names site h = (inr fig, h')
               ∧ px.sectors fig = [])
  ∧ scatter_rows spacex_df site [low; high] h = Some (LaunchDF []).
Proof.
  intros Hdf. split_and!; try done.
  - destruct (String.eqb_spec site "ALL") as [->|Hs].
    + eexists _, _. split; [by apply get_pie_chart_all_run|done].
    + eexists _, _. split; [by apply get_pie_chart_site_run|done].
  - by rewrite (scatter_rows_run _ _ []).
Qed.

Lemma empty_table_empty_charts_witness :
  [LaunchDF []] !! 0%nat = Some (LaunchDF [])
  ∧ scatter_rows 0 "KSC LC-39A" [0; 10000] [LaunchDF []] = Some (LaunchDF []).
Proof.
  split; [reflexivity|].
  apply (empty_table_empty_charts 0 ("index", "class") [LaunchDF []]
           "KSC LC-39A" 0 10000 eq_refl).
Defined.

(** ** The range of [get_scatter_chart] *)

(** X4: on a store that holds the table, [get_scatter_chart] called
    with a list of integers as range raises an exception exactly when
    the list does not have two elements; the exception is a
    [ValueError], that of the unpacking, raised before any frame is
    built: the store is left as it was. *)
Theorem scatter_raises_iff_not_pair (spacex_df : nat) (h : list Obj)
    (records : list LaunchRecord) (site : string) (payload_range : list Z) :
  h !! spacex_df = Some (LaunchDF records) ->
  ((∃ e, fst (get_scatter_chart spacex_df site payload_range h) = inl e)
   ↔ length payload_range ≠ 2%nat)
  ∧ (length payload_range ≠ 2%nat ->
     ∃ msg, get_scatter_chart spacex_df site payload_range h
            = (inl (ValueError msg), h)).
Proof.
  intros Hdf. split; [split|].
  - intros [e He] Hlen.
    destruct payload_range as [|low [|high [|? ?]]]; try done.
    by rewrite (get_scatter_chart_run _ _ records) in He.
  - intros Hlen. rewrite get_scatter_chart_unpack by done. by eexists.
  - intros Hlen. eexists. by apply get_scatter_chart_unpack.
Qed.

Lemma scatter_raises_iff_not_pair_witness :
  [LaunchDF [falcon]] !! 0%nat = Some (LaunchDF [falcon])
  ∧ length [500] ≠ 2%nat
  ∧ ∃ msg, get_scatter_chart 0 "ALL" [500] [LaunchDF [falcon]]
           = (inl (ValueError msg), [LaunchDF [falcon]]).
Proof.
  assert (Hlen : length [500] ≠ 2%nat) by (cbn; lia).
  split; [reflexivity|]. split; [exact Hlen|].
  apply (scatter_raises_iff_not_pair 0 [LaunchDF [falcon]] [falcon] "ALL" [500] eq_refl).
  exact Hlen.
Defined.

Lemma correlate_narrow records site low high low' high' :
  low' ≤ low -> high ≤ high' ->
  correlate records site low high
  = filter (in_range low high) (correlate records site low' high').
Proof.
  intros Hlow Hhigh. unfold correlate. rewrite list_filter_filter.
  apply list_filter_iff. intros r. unfold in_selection, in_range. intuition lia.
Qed.

(** X5: widening the range never loses a point.  When
    [low' <= low] and [high <= high'], the rows [get_scatter_chart]
    retains for [[low, high]] are the rows it retains for
    [[low', high']], for the same site, that lie in [[low, high]]; they
    form a sublist of them. *)
Theorem scatter_range_monotone (spacex_df : nat) (h : list Obj)
    (records : list LaunchRecord) (site : string) (low high low' high' : Z) :
  h !! spacex_df = Some (LaunchDF records) ->
  low' ≤ low -> high ≤ high' ->
  ∃ rows rows',
    scatter_rows spacex_df site [low; high] h = Some (LaunchDF rows)
    ∧ scatter_rows spacex_df site [low'; high'] h = Some (LaunchDF rows')
    ∧ rows = filter (fun r => low ≤ Payload_Mass r ∧ Payload_Mass r ≤ high) rows'
    ∧ rows `sublist_of` rows'.
Proof.
  intros Hdf Hlow Hhigh. eexists _, _.
  rewrite !(scatter_rows_run _ _ records) by done. split_and!; [done|done| |].
  - by apply correlate_narrow.
  - rewrite (correlate_narrow records site low high low' high') by done.
    apply sublist_filter.
Qed.

Lemma scatter_range_monotone_witness :
  [LaunchDF [falcon; heavy; dragon]] !! 0%nat = Some (LaunchDF [falcon; heavy; dragon])
  ∧ 0 ≤ 1000 ∧ 4000 ≤ 10000
  ∧ ∃ rows rows',
      scatter_rows 0 "ALL" [1000; 4000] [LaunchDF [falcon; heavy; dragon]]
      = Some (LaunchDF rows)
      ∧ scatter_rows 0 "ALL" [0; 10000] [LaunchDF [falcon; heavy; dragon]]
        = Some (LaunchDF rows')
      ∧ rows `sublist_of` rows'.
Proof.
  assert (H1 : 0 ≤ 1000) by lia. assert (H2 : 4000 ≤ 10000) by lia.
  split; [reflexivity|]. split; [exact H1|]. split; [exact H2|].
  destruct (scatter_range_monotone 0 [LaunchDF [falcon; heavy; dragon]]
              [falcon; heavy; dragon] "ALL" 1000 4000 0 10000 eq_refl H1 H2)
    as (rows & rows' & Hr & Hr' & _ & Hsub).
  by exists rows, rows'.
Defined.

(** X6: the chart of one site is cut out of the chart of all sites.
    For a site other than "ALL" and any range, the rows
    [get_scatter_chart] retains for the site are the rows it retains for
    "ALL" that carry the site, in the same order. *)
Theorem scatter_site_within_all (spacex_df : nat) (h : list Obj)
    (records : list LaunchRecord) (site : string) (low high : Z) :
  h !! spacex_df = Some (LaunchDF records) ->
  site ≠ "ALL" ->
  ∃ rows all_rows,
    scatter_rows spacex_df site [low; high] h = Some (LaunchDF rows)
    ∧ scatter_rows spacex_df "ALL" [low; high] h = Some (LaunchDF all_rows)
    ∧ rows = filter (fun r => Launch_Site r = site) all_rows
    ∧ rows `sublist_of` all_rows.
Proof.
  intros Hdf Hs. eexists _, _.
  rewrite !(scatter_rows_run _ _ records) by done. split_and!; [done|done| |].
  - by rewrite correlate_site, correlate_all.
  - rewrite correlate_site, correlate_all by done. apply sublist_filter.
Qed.

Lemma scatter_site_within_all_witness :
  [LaunchDF [falcon; heavy; dragon]] !! 0%nat = Some (LaunchDF [falcon; heavy; dragon])
  ∧ "KSC LC-39A" ≠ "ALL"
  ∧ ∃ rows all_rows,
      scatter_rows 0 "KSC LC-39A" [0; 20000] [LaunchDF [falcon; heavy; dragon]]
      = Some (LaunchDF rows)
      ∧ scatter_rows 0 "ALL" [0; 20000] [LaunchDF [falcon; heavy; dragon]]
        = Some (LaunchDF all_rows)
      ∧ rows `sublist_of` all_rows.
Proof.
  assert (Hs : "KSC LC-39A" ≠ "ALL") by discriminate.
  split; [reflexivity|]. split; [exact Hs|].
  destruct (scatter_site_within_all 0 [LaunchDF [falcon; heavy; dragon]]
              [falcon; heavy; dragon] "KSC LC-39A" 0 20000 eq_refl Hs)
    as (rows & all_rows & Hr & Hall & _ & Hsub).
  by exists rows, all_rows.
Defined.

(** X7: every point of the scatter chart lies in the selected range
    and belongs to the selection.  The [x], [y] and [color] columns of
    the figure have one entry per retained row; every [x] is a payload
    mass between [low] and [high], and every retained row carries the
    selected site unless the selection is "ALL". *)
Theorem scatter_points_in_range (spacex_df : nat) (h : list Obj)
    (records : list LaunchRecord) (site : string) (low high : Z) :
  h !! spacex_df = Some (LaunchDF records) ->
  ∃ fig h' rows,
    get_scatter_chart spacex_df site [low; high] h = (inr fig, h')
    ∧ px.sc_data_frame fig = LaunchDF rows
    ∧ px.sc_x fig = (fun r => CInt (Payload_Mass r)) <$> rows
    ∧ px.sc_y fig = (fun r => CInt (class r)) <$> rows
    ∧ length (px.sc_x fig) = length rows
    ∧ length (px.sc_y fig) = length rows
    ∧ length (px.sc_color fig) = length rows
    ∧ Forall (fun c => ∃ v, c = CInt v ∧ low ≤ v ∧ v ≤ high) (px.sc_x fig)
    ∧ Forall (fun r => site = "ALL" ∨ Launch_Site r = site) rows.
Proof.
  intros Hdf.
  exists (scatter_figure (correlate records site low high) (scatter_title site)),
         (h ++ scatter_garbage records site low high),
         (correlate records site low high).
  split; [by apply get_scatter_chart_run|].
  cbn [scatter_figure px.sc_data_frame px.sc_x px.sc_y px.sc_color].
  rewrite !length_fmap. split_and!; try done.
  - apply Forall_fmap, Forall_forall. intros r Hr.
    apply list_elem_of_filter in Hr as [[Hrange _] _]. cbn. eauto.
  - apply Forall_forall. intros r Hr.
    by apply list_elem_of_filter in Hr as [[_ Hsite] _].
Qed.

Lemma scatter_points_in_range_witness :
  [LaunchDF [falcon; heavy; dragon]] !! 0%nat = Some (LaunchDF [falcon; heavy; dragon])
  ∧ ∃ fig h',
      get_scatter_chart 0 "ALL" [1000; 20000] [LaunchDF [falcon; heavy; dragon]]
      = (inr fig, h')
      ∧ px.sc_x fig = [CInt 12000; CInt 3000].
Proof.
  split; [reflexivity|].
  destruct (scatter_points_in_range 0 [LaunchDF [falcon; heavy; dragon]]
              [falcon; heavy; dragon] "ALL" 1000 20000 eq_refl)
    as (fig & h' & rows & Hrun & Hframe & Hx & _).
  exists fig, h'. split; [exact Hrun|].
  rewrite (get_scatter_chart_run _ _ [falcon; heavy; dragon]) in Hrun by reflexivity.
  inversion Hrun; subst fig. reflexivity.
Defined.

(** ** The site selector and the pies *)

Lemma dropdown_options_values (records : list LaunchRecord) :
  value <$> dropdown_options records = "ALL" :: launch_sites records.
Proof.
  unfold dropdown_options. rewrite fold_append, fmap_app, <- list_fmap_compose.
  cbn [fmap list_fmap app value]. f_equal. apply list_fmap_id.
Qed.

(** X8: the values of the selector's options are pairwise distinct
    exactly when no site of the table is itself named "ALL"; a table with
    such a site gets two options of value "ALL". *)
Theorem dropdown_values_distinct_iff (records : list LaunchRecord) :
  NoDup (value <$> dropdown_options records) ↔ "ALL" ∉ Launch_Site <$> records.
Proof.
  rewrite dropdown_options_values, NoDup_cons.
  unfold launch_sites. rewrite unique_elem. split; [tauto|].
  intros Hall. split; [done|apply unique_nodup].
Qed.

(** X9: the pie of one site does not depend on the names pandas
    gives the columns of [value_counts().reset_index()]: after the
    renaming of line 82 the lookup of "count" and "class" succeeds, and
    the call returns the same figure and leaves the same store whatever
    those names were. *)
Theorem pie_independent_of_reset_index_names (spacex_df : nat)
    (names names' : string * string) (h : list Obj)
    (records : list LaunchRecord) (site : string) :
  h !! spacex_df = Some (LaunchDF records) ->
  get_pie_chart spacex_df names site h = get_pie_chart spacex_df names' site h
  ∧ ∃ fig h', get_pie_chart spacex_df names site h = (inr fig, h').
Proof.
  intros Hdf. destruct (String.eqb_spec site "ALL") as [->|Hs].
  - rewrite !(get_pie_chart_all_run _ _ _ records) by done. eauto.
  - rewrite !(get_pie_chart_site_run _ _ _ records) by done. eauto.
Qed.

Lemma pie_independent_of_reset_index_names_witness :
  [LaunchDF [falcon; dragon]] !! 0%nat = Some (LaunchDF [falcon; dragon])
  ∧ get_pie_chart 0 ("index", "class") "CCAFS LC-40" [LaunchDF [falcon; dragon]]
    = get_pie_chart 0 ("class", "count") "CCAFS LC-40" [LaunchDF [falcon; dragon]].
Proof.
  split; [reflexivity|].
  apply (pie_independent_of_reset_index_names 0 ("index", "class") ("class", "count")
           [LaunchDF [falcon; dragon]] [falcon; dragon] "CCAFS LC-40" eq_refl).
Defined.

Lemma outcome_pairs_values records :
  sum_values (outcome_pairs records) = column_sum (class <$> records).
Proof.
  unfold sum_values, outcome_pairs, column_sum. by rewrite <- list_fmap_compose.
Qed.

Lemma binary_column_sum records :
  binary_outcomes records ->
  column_sum (class <$> records)
  = Z.of_nat (length (filter (fun r => class r = 1) records)).
Proof.
  unfold binary_outcomes, column_sum. induction 1 as [|r records Hr _ IH]; [done|].
  rewrite fmap_cons, filter_cons. cbn [foldr]. rewrite IH.
  destruct (decide (class r = 1)); cbn [length]; lia.
Qed.

(** X10: the values of the pie of all sites add up to the sum of
    the [class] column of the table; with a binary column, to the number
    of success records. *)
Theorem pie_all_total (spacex_df : nat) (names : string * string)
    (h : list Obj) (records : list LaunchRecord) :
  h !! spacex_df = Some (LaunchDF records) ->
  ∃ fig,
    get_pie_chart spacex_df names "ALL" h = (inr fig, h)
    ∧ sum_values (px.sectors fig) = column_sum (class <$> records)
    ∧ (binary_outcomes records ->
       sum_values (px.sectors fig)
       = Z.of_nat (length (filter (fun r => class r = 1) records))).
Proof.
  intros Hdf. exists (pie_all_figure records).
  split; [by apply get_pie_chart_all_run|].
  assert (Hsum : sum_values (px.sectors (pie_all_figure records))
                 = column_sum (class <$> records)).
  { rewrite all_sectors, fold_merge_sum, outcome_pairs_values.
    change (sum_values []) with 0. lia. }
  split; [done|]. intros Hbin. by rewrite Hsum, binary_column_sum.
Qed.

Lemma pie_all_total_witness :
  [LaunchDF [falcon; heavy; dragon]] !! 0%nat = Some (LaunchDF [falcon; heavy; dragon])
  ∧ ∃ fig,
      get_pie_chart 0 ("index", "class") "ALL" [LaunchDF [falcon; heavy; dragon]]
      = (inr fig, [LaunchDF [falcon; heavy; dragon]])
      ∧ sum_values (px.sectors fig) = 2.
Proof.
  split; [reflexivity|].
  destruct (pie_all_total 0 ("index", "class") [LaunchDF [falcon; heavy; dragon]]
              [falcon; heavy; dragon] eq_refl)
    as (fig & Hrun & Hsum & _).
  exists fig. split; [exact Hrun|]. rewrite Hsum. reflexivity.
Defined.

(** X11: the two pies agree.  With a binary outcome column and a
    site [S] other than "ALL", the value the pie of all sites shows for
    [S] is the value of the sector labelled 1 in the pie of [S]; when it
    is 0, the pie of [S] has no sector labelled 1. *)
Theorem pie_all_agrees_with_site (spacex_df : nat) (names : string * string)
    (h : list Obj) (records : list LaunchRecord) (site : string) (v : Z) :
  h !! spacex_df = Some (LaunchDF records) ->
  binary_outcomes records ->
  site ≠ "ALL" ->
  ∃ fig_all fig_site h',
    get_pie_chart spacex_df names "ALL" h = (inr fig_all, h)
    ∧ get_pie_chart spacex_df names site h = (inr fig_site, h')
    ∧ ((CStr site, v) ∈ px.sectors fig_all ->
       (0 < v -> (CInt 1, v) ∈ px.sectors fig_site)
       ∧ (v = 0 -> CInt 1 ∉ fst <$> px.sectors fig_site)).
Proof.
  intros Hdf Hbin Hs. eexists _, _, _.
  split; [by apply get_pie_chart_all_run|].
  split; [by apply get_pie_chart_site_run|].
  intros ->%(all_sectors_entry _ _ _ Hbin). rewrite site_sectors. split.
  - intros Hpos. apply site_counts_present. lia.
  - intros Hzero [[l n] [E Hin]]%list_elem_of_fmap. cbn [fst] in E. subst l.
    destruct (site_counts_entry _ _ _ _ Hbin Hin) as (c & _ & Ec & -> & Hpos).
    inversion Ec; subst c. lia.
Qed.

Lemma pie_all_agrees_with_site_witness :
  [LaunchDF [falcon; heavy; dragon]] !! 0%nat = Some (LaunchDF [falcon; heavy; dragon])
  ∧ binary_outcomes [falcon; heavy; dragon]
  ∧ "CCAFS LC-40" ≠ "ALL"
  ∧ ∃ fig_all fig_site h',
      get_pie_chart 0 ("index", "class") "ALL" [LaunchDF [falcon; heavy; dragon]]
      = (inr fig_all, [LaunchDF [falcon; heavy; dragon]])
      ∧ get_pie_chart 0 ("index", "class") "CCAFS LC-40"
          [LaunchDF [falcon; heavy; dragon]]
        = (inr fig_site, h').
Proof.
  assert (Hbin : binary_outcomes [falcon; heavy; dragon])
    by (unfold binary_outcomes;
        repeat first [apply Forall_nil_2 | apply Forall_cons_2; [cbn; lia|]]).
  assert (Hs : "CCAFS LC-40" ≠ "ALL") by discriminate.
  split; [reflexivity|]. split; [exact Hbin|]. split; [exact Hs|].
  destruct (pie_all_agrees_with_site 0 ("index", "class")
              [LaunchDF [falcon; heavy; dragon]] [falcon; heavy; dragon]
              "CCAFS LC-40" 1 eq_refl Hbin Hs)
    as (fig_all & fig_site & h' & Hall & Hsite & _).
  by exists fig_all, fig_site, h'.
Defined.

Lemma correlate_covered records site low high :
  site ≠ "ALL" -> covers low high (site_rows records site) ->
  correlate records site low high = site_rows records site.
Proof.
  intros Hs. unfold covers, correlate, site_rows.
  induction records as [|r records IH]; [done|].
  rewrite !filter_cons. destruct (decide (Launch_Site r = site)) as [E|E].
  - intros [Hr Hc]%Forall_cons. rewrite decide_True; [by rewrite IH|].
    unfold in_selection. tauto.
  - intros Hc. rewrite decide_False; [by apply IH|].
    unfold in_selection. tauto.
Qed.

(** X12: on a table without missing cell, the pie and the scatter
    chart of a site agree.  For a site
    other than "ALL" and a range that covers every payload mass of the
    site, the scatter chart plots as many points as the values of the
    site's pie add up to: the number of records of the site. *)
Theorem scatter_points_match_pie (spacex_df : nat) (names : string * string)
    (h : list Obj) (records : list LaunchRecord) (site : string) (low high : Z) :
  h !! spacex_df = Some (LaunchDF records) ->
  site ≠ "ALL" ->
  covers low high (site_rows records site) ->
  ∃ fig h',
    get_pie_chart spacex_df names site h = (inr fig, h')
    ∧ Z.of_nat (scatter_points spacex_df site [low; high] h) = sum_values (px.sectors fig)
    ∧ scatter_points spacex_df site [low; high] h = site_count records site.
Proof.
  intros Hdf Hs Hc. eexists _, _.
  split; [by apply get_pie_chart_site_run|].
  assert (Hn : scatter_points spacex_df site [low; high] h = site_count records site).
  { unfold scatter_points. rewrite (get_scatter_chart_run _ _ records) by done.
    cbn [fst scatter_figure px.sc_x]. by rewrite length_fmap, correlate_covered. }
  split; [|done]. by rewrite Hn, site_sectors, site_counts_sum.
Qed.

Lemma scatter_points_match_pie_witness :
  [LaunchDF [falcon; heavy; dragon]] !! 0%nat = Some (LaunchDF [falcon; heavy; dragon])
  ∧ "CCAFS LC-40" ≠ "ALL"
  ∧ covers 0 5000 (site_rows [falcon; heavy; dragon] "CCAFS LC-40")
  ∧ scatter_points 0 "CCAFS LC-40" [0; 5000] [LaunchDF [falcon; heavy; dragon]] = 2%nat.
Proof.
  assert (Hs : "CCAFS LC-40" ≠ "ALL") by discriminate.
  assert (Hc : covers 0 5000 (site_rows [falcon; heavy; dragon] "CCAFS LC-40"))
    by (unfold covers; repeat first [apply Forall_nil_2 | apply Forall_cons_2; [cbn; lia|]]).
  split; [reflexivity|]. split; [exact Hs|]. split; [exact Hc|].
  destruct (scatter_points_match_pie 0 ("index", "class")
              [LaunchDF [falcon; heavy; dragon]] [falcon; heavy; dragon]
              "CCAFS LC-40" 0 5000 eq_refl Hs Hc)
    as (fig & h' & _ & _ & Hn).
  rewrite Hn. reflexivity.
Defined.

Lemma insert_desc_decreasing e cd :
  decreasing cd -> decreasing (pd.insert_desc e cd).
Proof.
  unfold decreasing. induction cd as [|e' cd IH]; intros Hs; cbn [pd.insert_desc].
  - by repeat constructor.
  - apply StronglySorted_inv in Hs as [Hs Hall].
    destruct (Z.leb_spec (snd e') (snd e)) as [Hle|Hlt].
    + constructor; [by constructor|]. constructor; [done|].
      eapply Forall_impl; [exact Hall|]. cbn. intros x Hx. lia.
    + constructor; [by apply IH|].
      rewrite insert_desc_perm. constructor; [lia|done].
Qed.

Lemma value_counts_decreasing s : decreasing (pd.value_counts s).
Proof.
  unfold pd.value_counts, pd.sort_desc.
  induction (fold_left _ s []) as [|e cd IH]; cbn [foldr].
  - constructor.
  - by apply insert_desc_decreasing.
Qed.

(** X13: the pie of one site lists its sectors by decreasing count:
    on a store that holds the table, for a site other than "ALL", no
    sector is followed by a sector of greater value, so the more frequent
    outcome comes first. *)
Theorem pie_site_decreasing (spacex_df : nat) (names : string * string)
    (h : list Obj) (records : list LaunchRecord) (site : string) :
  h !! spacex_df = Some (LaunchDF records) ->
  site ≠ "ALL" ->
  ∃ fig h',
    get_pie_chart spacex_df names site h = (inr fig, h')
    ∧ decreasing (px.sectors fig)
    ∧ ∀ i j a b, px.sectors fig !! i = Some a -> px.sectors fig !! j = Some b ->
                 (i < j)%nat -> snd b ≤ snd a.
Proof.
  intros Hdf Hs. eexists _, _. split; [by apply get_pie_chart_site_run|].
  rewrite site_sectors.
  assert (Hd : decreasing (site_counts records site)) by apply value_counts_decreasing.
  split; [done|]. unfold decreasing in Hd.
  induction Hd as [|e cd Hd IH Hall]; intros i j a b Hi Hj Hij.
  - by rewrite lookup_nil in Hi.
  - destruct j as [|j]; [lia|]. cbn in Hj. destruct i as [|i].
    + cbn in Hi. inversion Hi; subst a. rewrite Forall_forall in Hall.
      apply Hall. by eapply list_elem_of_lookup_2.
    + cbn in Hi. apply (IH i j); [done|done|lia].
Qed.

Lemma pie_site_decreasing_witness :
  [LaunchDF [falcon; dragon; dragon]] !! 0%nat = Some (LaunchDF [falcon; dragon; dragon])
  ∧ "CCAFS LC-40" ≠ "ALL"
  ∧ ∃ fig h',
      get_pie_chart 0 ("index", "class") "CCAFS LC-40" [LaunchDF [falcon; dragon; dragon]]
      = (inr fig, h')
      ∧ decreasing (px.sectors fig).
Proof.
  assert (Hs : "CCAFS LC-40" ≠ "ALL") by discriminate.
  split; [reflexivity|]. split; [exact Hs|].
  destruct (pie_site_decreasing 0 ("index", "class") [LaunchDF [falcon; dragon; dragon]]
              [falcon; dragon; dragon] "CCAFS LC-40" eq_refl Hs)
    as (fig & h' & Hrun & Hd & _).
  by exists fig, h'.
Defined.

(** X14: on a table without missing cell, every site the selector
    offers has something to show.  For
    an option of the selector whose value is not "ALL", [get_pie_chart]
    called with that value returns a pie with at least one sector, whose
    values add up to the number of records of the site, which is
    positive. *)
Theorem dropdown_option_selects_records (spacex_df : nat) (names : string * string)
    (h : list Obj) (records : list LaunchRecord) (o : DropdownOption) :
  h !! spacex_df = Some (LaunchDF records) ->
  o ∈ dropdown_options records ->
  value o ≠ "ALL" ->
  ∃ fig h',
    get_pie_chart spacex_df names (value o) h = (inr fig, h')
    ∧ px.sectors fig ≠ []
    ∧ sum_values (px.sectors fig) = Z.of_nat (site_count records (value o))
    ∧ (0 < site_count records (value o))%nat.
Proof.
  intros Hdf Ho Hv.
  assert (Hsite : value o ∈ Launch_Site <$> records).
  { assert (Hin : value o ∈ value <$> dropdown_options records)
      by (by apply list_elem_of_fmap_2).
    rewrite dropdown_options_values in Hin.
    apply elem_of_cons in Hin as [?|Hin]; [done|].
    exact (proj1 (unique_elem _ _) Hin). }
  assert (Hpos : (0 < site_count records (value o))%nat).
  { apply list_elem_of_fmap in Hsite as (r & Er & Hr).
    assert (Hin : r ∈ filter (fun r' => Launch_Site r' = value o) records)
      by (by apply list_elem_of_filter).
    unfold site_count. destruct (filter _ records); [by apply elem_of_nil in Hin|].
    cbn [length]. lia. }
  eexists _, _. split; [by apply get_pie_chart_site_run|].
  rewrite site_sectors. split_and!; [|apply site_counts_sum|done].
  intros Hnil. pose proof (site_counts_sum records (value o)) as Hsum.
  rewrite Hnil in Hsum. change (sum_values []) with 0 in Hsum. lia.
Qed.

Lemma dropdown_option_selects_records_witness :
  [LaunchDF [falcon; heavy]] !! 0%nat = Some (LaunchDF [falcon; heavy])
  ∧ mkOption "KSC LC-39A" "KSC LC-39A" ∈ dropdown_options [falcon; heavy]
  ∧ value (mkOption "KSC LC-39A" "KSC LC-39A") ≠ "ALL"
  ∧ ∃ fig h',
      get_pie_chart 0 ("index", "class") "KSC LC-39A" [LaunchDF [falcon; heavy]]
      = (inr fig, h')
      ∧ px.sectors fig ≠ [].
Proof.
  assert (Ho : mkOption "KSC LC-39A" "KSC LC-39A" ∈ dropdown_options [falcon; heavy])
    by (vm_compute; apply list_elem_of_further, list_elem_of_further, list_elem_of_here).
  assert (Hv : value (mkOption "KSC LC-39A" "KSC LC-39A") ≠ "ALL") by discriminate.
  split; [reflexivity|]. split; [exact Ho|]. split; [exact Hv|].
  destruct (dropdown_option_selects_records 0 ("index", "class")
              [LaunchDF [falcon; heavy]] [falcon; heavy]
              (mkOption "KSC LC-39A" "KSC LC-39A") eq_refl Ho Hv)
    as (fig & h' & Hrun & Hne & _).
  by exists fig, h'.
Defined.

(** ** The chart of all sites and the charts of the sites *)

Lemma sum_list_with_ext_in {A} (f g : A -> nat) (l : list A) :
  (∀ x, x ∈ l -> f x = g x) -> sum_list_with f l = sum_list_with g l.
Proof.
  induction l as [|x l IH]; intros Hfg; [done|]. cbn [sum_list_with].
  rewrite (Hfg x) by apply list_elem_of_here.
  rewrite IH; [done|]. intros y Hy. by apply Hfg, list_elem_of_further.
Qed.

Lemma sum_list_with_add {A} (f g : A -> nat) (l : list A) :
  sum_list_with (fun x => (f x + g x)%nat) l
  = (sum_list_with f l + sum_list_with g l)%nat.
Proof. induction l as [|x l IH]; [done|]. cbn [sum_list_with]. rewrite IH. lia. Qed.

Lemma sum_list_with_zero {A} (l : list A) : sum_list_with (fun _ => 0%nat) l = 0%nat.
Proof. induction l as [|x l IH]; [done|]. cbn [sum_list_with]. by rewrite IH. Qed.

Lemma sum_indicator {B} `{EqDecision B} (b : B) (U : list B) :
  NoDup U -> b ∈ U ->
  sum_list_with (fun u => if decide (b = u) then 1%nat else 0%nat) U = 1%nat.
Proof.
  induction 1 as [|u U Hu Hnd IH]; intros Hb; [by apply elem_of_nil in Hb|].
  cbn [sum_list_with]. destruct (decide (b = u)) as [->|Hne].
  - rewrite (sum_list_with_ext_in _ (fun _ => 0%nat)).
    + by rewrite sum_list_with_zero.
    + intros x Hx. rewrite decide_False; [done|]. by intros ->.
  - apply elem_of_cons in Hb as [?|Hb]; [done|]. by rewrite IH.
Qed.

(** A list splits into its classes under a key: as many elements as
    the classes of the keys of [U] have together. *)
Lemma length_by_key {A B} `{EqDecision B} (k : A -> B) (U : list B) (l : list A) :
  NoDup U -> (∀ x, x ∈ l -> k x ∈ U) ->
  length l = sum_list_with (fun u => length (filter (fun x => k x = u) l)) U.
Proof.
  intros Hnd. induction l as [|x l IH]; intros Hk.
  - rewrite (sum_list_with_ext_in _ (fun _ => 0%nat)) by done.
    by rewrite sum_list_with_zero.
  - rewrite (sum_list_with_ext_in _
               (fun u => ((if decide (k x = u) then 1 else 0)
                          + length (filter (fun y => k y = u) l))%nat)).
    + rewrite sum_list_with_add, sum_indicator, <- IH; [done| |done|].
      * intros y Hy. by apply Hk, list_elem_of_further.
      * apply Hk, list_elem_of_here.
    + intros u _. rewrite filter_cons. by destruct (decide (k x = u)).
Qed.

Lemma scatter_points_run spacex_df h records site low high :
  h !! spacex_df = Some (LaunchDF records) ->
  scatter_points spacex_df site [low; high] h = length (correlate records site low high).
Proof.
  intros Hdf. unfold scatter_points. rewrite (get_scatter_chart_run _ _ records) by done.
  cbn [fst scatter_figure px.sc_x]. apply length_fmap.
Qed.

(** X15: the chart of all sites is made of the charts of the sites.
    When no site of the table is itself named "ALL", the number of
    points [get_scatter_chart] plots for "ALL" and a range is the sum,
    over the sites the selector offers, of the number of points it plots
    for the site and the same range. *)
Theorem scatter_all_sums_sites (spacex_df : nat) (h : list Obj)
    (records : list LaunchRecord) (low high : Z) :
  h !! spacex_df = Some (LaunchDF records) ->
  "ALL" ∉ Launch_Site <$> records ->
  scatter_points spacex_df "ALL" [low; high] h
  = sum_list_with (fun site => scatter_points spacex_df site [low; high] h)
                  (launch_sites records).
Proof.
  intros Hdf Hall.
  rewrite (scatter_points_run _ _ records) by done. rewrite correlate_all.
  rewrite (sum_list_with_ext_in _
             (fun site => length (filter (fun r => Launch_Site r = site)
                                         (filter (in_range low high) records)))).
  - apply length_by_key; [apply unique_nodup|].
    intros r [_ Hr]%list_elem_of_filter.
    apply unique_elem. by apply list_elem_of_fmap_2.
  - intros site Hsite. rewrite (scatter_points_run _ _ records) by done.
    rewrite correlate_site; [done|]. intros ->. apply Hall.
    exact (proj1 (unique_elem _ _) Hsite).
Qed.

Lemma scatter_all_sums_sites_witness :
  [LaunchDF [falcon; heavy; dragon]] !! 0%nat = Some (LaunchDF [falcon; heavy; dragon])
  ∧ ("ALL" ∉ Launch_Site <$> [falcon; heavy; dragon])
  ∧ scatter_points 0 "ALL" [0; 5000] [LaunchDF [falcon; heavy; dragon]]
    = sum_list_with
        (fun site => scatter_points 0 site [0; 5000] [LaunchDF [falcon; heavy; dragon]])
        (launch_sites [falcon; heavy; dragon]).
Proof.
  assert (Hall : "ALL" ∉ Launch_Site <$> [falcon; heavy; dragon])
    by (intros Hin; cbn in Hin;
        repeat (apply elem_of_cons in Hin as [Hin|Hin]; [discriminate|]);
        by apply elem_of_nil in Hin).
  split; [reflexivity|]. split; [exact Hall|].
  exact (scatter_all_sums_sites 0 [LaunchDF [falcon; heavy; dragon]]
           [falcon; heavy; dragon] 0 5000 eq_refl Hall).
Defined.
